(** * Stock Market Analyzer: a shallow embedding of [streamlit_app.py]

    The script reads a comma separated list of ticker symbols and a date
    range, fetches a price table, derives a market capitalisation series per
    symbol and shows the five largest gainers and losers.

    Conventions of the embedding.
    - Strings are Rocq strings read as sequences of code points below 128;
      [strip] and [upper] follow Python on that range.
    - Calendar dates are day ordinals in [Z].
    - A numeric cell of a pandas column is [option Q]: [None] is NaN (an
      absent value), [Some q] an exact number.  Arithmetic is exact; rounding
      of binary floating point is not part of the model.
    - pandas objects live in a store and are named by references, because the
      script mutates frames in place and keeps references to them in a
      dictionary.
    - Streamlit output and calls to yfinance are recorded, in order, as
      events.  The answers of yfinance are taken from a [world]. *)

From Stdlib Require Import QArith ZArith Lia Permutation Sorted Ascii String.
From stdpp Require Import base option list strings sorting.

Local Open Scope string_scope.
Local Open Scope list_scope.

(** ** Python strings: [split], [strip], [upper] *)

Module PyStr.

(** [s.split(sep)] for a one-character separator: never an empty list. *)
Fixpoint split (sep : ascii) (s : string) : list string :=
  match s with
  | EmptyString => [EmptyString]
  | String c s' =>
      if Ascii.eqb c sep then EmptyString :: split sep s'
      else match split sep s' with
           | w :: ws => String c w :: ws
           | [] => [String c EmptyString]
           end
  end.

(** [c.isspace()] on code points below 128: tab, line feed, vertical tab,
    form feed, carriage return, the four separators 28..31 and space. *)
Definition isspace (c : ascii) : bool :=
  let n := nat_of_ascii c in
  (((9 <=? n) && (n <=? 13)) || ((28 <=? n) && (n <=? 32)))%nat.

Fixpoint lstrip (s : string) : string :=
  match s with
  | EmptyString => EmptyString
  | String c s' => if isspace c then lstrip s' else s
  end.

Fixpoint rstrip (s : string) : string :=
  match s with
  | EmptyString => EmptyString
  | String c s' =>
      match rstrip s' with
      | EmptyString => if isspace c then EmptyString else String c EmptyString
      | r => String c r
      end
  end.

(** [s.strip()] *)
Definition strip (s : string) : string := rstrip (lstrip s).

Definition upper_char (c : ascii) : ascii :=
  let n := nat_of_ascii c in
  if ((97 <=? n) && (n <=? 122))%nat then ascii_of_nat (n - 32) else c.

(** [s.upper()] *)
Fixpoint upper (s : string) : string :=
  match s with
  | EmptyString => EmptyString
  | String c s' => String (upper_char c) (upper s')
  end.

Fixpoint contains_char (c : ascii) (s : string) : bool :=
  match s with
  | EmptyString => false
  | String c' s' => Ascii.eqb c' c || contains_char c s'
  end.

Definition single_quote : ascii := ascii_of_nat 39.
Definition double_quote : ascii := ascii_of_nat 34.
Definition backslash : ascii := ascii_of_nat 92.

Definition hex_digit (n : nat) : ascii :=
  nth n ["0"; "1"; "2"; "3"; "4"; "5"; "6"; "7"; "8"; "9";
         "a"; "b"; "c"; "d"; "e"; "f"]%char "0"%char.

(** How [repr] writes one character between the quotes [quote]. *)
Definition repr_char (quote c : ascii) : string :=
  let n := nat_of_ascii c in
  if Ascii.eqb c quote || Ascii.eqb c backslash then
    String backslash (String c EmptyString)
  else if (n =? 9)%nat then String backslash "t"
  else if (n =? 10)%nat then String backslash "n"
  else if (n =? 13)%nat then String backslash "r"
  else if ((n <? 32) || (n =? 127))%nat then
    String backslash
      (String "x" (String (hex_digit (n / 16))
                     (String (hex_digit (n mod 16)) EmptyString)))
  else String c EmptyString.

Fixpoint repr_chars (quote : ascii) (s : string) : string :=
  match s with
  | EmptyString => String quote EmptyString
  | String c s' => repr_char quote c +:+ repr_chars quote s'
  end.

(** [repr(s)] on code points below 128: single quotes, unless [s] holds a
    single quote and no double quote; the quote in use, the backslash and
    the control characters are escaped. *)
Definition repr (s : string) : string :=
  let quote :=
    if contains_char single_quote s && negb (contains_char double_quote s)
    then double_quote else single_quote in
  String quote (repr_chars quote s).

End PyStr.

(** Line 21: [stocks = [stock.strip().upper() for stock in
    stocks_input.split(",")]]. *)
Definition stocks_of (stocks_input : string) : list string :=
  map (fun stock => PyStr.upper (PyStr.strip stock))
      (PyStr.split "," stocks_input).

(** ** pandas frames *)

(** A cell is a number or NaN. *)
Abbreviation cell := (option Q) (only parsing).
Abbreviation series := (list (option Q)) (only parsing).

(** The column labels of a frame: a flat index of field names, or a two-level
    index of (field, symbol) pairs, as [yf.download] returns for one and for
    several symbols. *)
Inductive columns : Type :=
| FlatCols (cs : list (string * series))
| MultiCols (cs : list ((string * string) * series)).

Record DataFrame : Type := mkDF { index : list Z; cols : columns }.

(** Python exceptions that the script can meet.  [Unsupported] is not an
    exception of Python: it marks a pandas operation applied to a frame shape
    that this embedding does not cover (item access on a two-level frame,
    which pandas answers with a sub-frame) and the use of a reference that
    names no object, which the script never does.  Nothing is concluded from
    it: the statements below that say what is raised are about frames of the
    shape that fits the number of symbols. *)
Inductive exn : Type :=
| KeyError (key : string)
| TypeError (msg : string)
| ExternalError (msg : string)
| Unsupported.

Inductive result (A : Type) : Type :=
| Ok (a : A)
| Raise (e : exn).
Arguments Ok {A} a.
Arguments Raise {A} e.

(** [str(e)] as used by the f-string of the outer handler; the text of a
    [KeyError] is the [repr] of its key. *)
Definition exn_str (e : exn) : string :=
  match e with
  | KeyError k => PyStr.repr k
  | TypeError m => m
  | ExternalError m => m
  | Unsupported => "unsupported"
  end.

Module Frame.

(** [df.empty]: no rows or no columns. *)
Definition empty (df : DataFrame) : bool :=
  match index df, cols df with
  | [], _ => true
  | _, FlatCols [] => true
  | _, MultiCols [] => true
  | _, _ => false
  end.

(** [df.loc[:, (slice(None), stock)]]: the columns whose second level is
    [stock]; a [KeyError] when there is none.  On flat columns pandas takes
    the pair for a list of labels and fails on the slice in it. *)
Definition loc_symbol (stock : string) (df : DataFrame) : result DataFrame :=
  match cols df with
  | MultiCols cs =>
      match filter (fun c => snd (fst c) = stock) cs with
      | [] => Raise (KeyError stock)
      | sel => Ok (mkDF (index df) (MultiCols sel))
      end
  | FlatCols _ => Raise (TypeError "unhashable type: 'slice'")
  end.

(** [df.columns.droplevel(1)], assigned back to [df.columns]. *)
Definition droplevel1 (df : DataFrame) : result DataFrame :=
  match cols df with
  | MultiCols cs =>
      Ok (mkDF (index df) (FlatCols (map (fun c => (fst (fst c), snd c)) cs)))
  | FlatCols _ => Raise Unsupported
  end.

(** [name in df.columns]; on a two-level index a field name matches the
    first level. *)
Definition contains (name : string) (df : DataFrame) : bool :=
  match cols df with
  | FlatCols cs => bool_decide (name ∈ map fst cs)
  | MultiCols cs => bool_decide (name ∈ map (fun c => fst (fst c)) cs)
  end.

Fixpoint lookup_col (name : string) (cs : list (string * series))
  : option series :=
  match cs with
  | [] => None
  | (k, v) :: cs' => if String.eqb k name then Some v else lookup_col name cs'
  end.

(** [df[name]] *)
Definition getitem (name : string) (df : DataFrame) : result series :=
  match cols df with
  | FlatCols cs =>
      match lookup_col name cs with
      | Some v => Ok v
      | None => Raise (KeyError name)
      end
  | MultiCols _ => Raise Unsupported
  end.

Fixpoint assign_col (name : string) (v : series) (cs : list (string * series))
  : list (string * series) :=
  match cs with
  | [] => [(name, v)]
  | (k, w) :: cs' =>
      if String.eqb k name then (k, v) :: cs'
      else (k, w) :: assign_col name v cs'
  end.

(** [df[name] = v]: replaces the column in place, or appends it. *)
Definition setitem (name : string) (v : series) (df : DataFrame)
  : result DataFrame :=
  match cols df with
  | FlatCols cs => Ok (mkDF (index df) (FlatCols (assign_col name v cs)))
  | MultiCols _ => Raise Unsupported
  end.

(** The product of a cell and an integer: NaN stays NaN. *)
Definition mul_cell (c : cell) (n : Z) : cell :=
  match c with
  | Some p => Some (p * inject_Z n)%Q
  | None => None
  end.

(** The difference of two cells: NaN when either is NaN. *)
Definition sub_cell (c prev : cell) : cell :=
  match c, prev with
  | Some x, Some y => Some (x - y)%Q
  | _, _ => None
  end.

(** [s * n] for an integer [n], row by row. *)
Definition mul_scalar (s : series) (n : Z) : series :=
  map (fun c => mul_cell c n) s.

(** [s.diff()]: NaN first, then the difference to the previous row. *)
Fixpoint diff_from (prev : cell) (s : series) : series :=
  match s with
  | [] => []
  | c :: s' => sub_cell c prev :: diff_from c s'
  end.

Definition diff (s : series) : series :=
  match s with
  | [] => []
  | c :: s' => None :: diff_from c s'
  end.

(** [s.sum()] with the default [skipna=True]: NaN cells are left out. *)
Fixpoint sum_from (acc : Q) (s : series) : Q :=
  match s with
  | [] => acc
  | Some x :: s' => sum_from (acc + x)%Q s'
  | None :: s' => sum_from acc s'
  end.

Definition sum (s : series) : Q := sum_from 0%Q s.

End Frame.

(** ** The rows of [top_movers_df] *)

Record mover : Type := mkMover { Stock : string; Total : Q }.

Module Movers.

(** Insertion of a row in front of the first row that is not smaller. *)
Fixpoint insert (x : mover) (l : list mover) : list mover :=
  match l with
  | [] => [x]
  | y :: l' =>
      if Qle_bool (Total x) (Total y) then x :: l else y :: insert x l'
  end.

(** An ascending sort, by insertion.  It keeps rows of equal total in their
    order, which the sort of pandas (quicksort by default) need not do: the
    order of ties is a choice of this embedding, and no statement below says
    where rows of equal total stand. *)
Definition argsort (l : list mover) : list mover := foldr insert [] l.

(** [df.sort_values("Total Market Cap Change", ascending=...)].  As pandas'
    [nargsort] does, a descending sort reverses the rows, sorts them
    ascending and reverses the outcome.  A frame built from an empty list
    has no such column, which is a [KeyError]. *)
Definition sort_values (ascending : bool) (rows : list mover)
  : result (list mover) :=
  match rows with
  | [] => Raise (KeyError "Total Market Cap Change")
  | _ => Ok (if ascending then argsort rows else rev (argsort (rev rows)))
  end.

(** [df.head(n)] *)
Definition head (n : nat) (rows : list mover) : list mover := take n rows.

End Movers.

(** ** Events, the store and the monad of the script *)

(** References are positions in the store. *)
Abbreviation loc := nat (only parsing).

Inductive event : Type :=
| yf_download (tickers : list string) (start_date end_date : Z)
| yf_Ticker_info (ticker : string)
| st_error (msg : string)
| st_warning (msg : string)
| st_header (msg : string)
| st_subheader (msg : string)
| st_dataframe (df : DataFrame)
| st_dataframe_movers (rows : list mover).

(** The answers of yfinance.  [sharesOutstanding i s] is the outcome of the
    lookup made for the [i]-th entry of [stocks], whose symbol is [s]; a
    lookup that fails in any way raises.  A lookup that returns answers an
    integer: a field that is present without a number in it (Python's
    [None]), with which the product of line 79 raises, is not among the
    answers of a world. *)
Record world : Type := mkWorld {
  download : list string -> Z -> Z -> result DataFrame;
  sharesOutstanding : nat -> string -> result Z
}.

Record state : Type := mkState { heap : list DataFrame; out : list event }.

Definition M (A : Type) : Type := state -> result A * state.

Definition ret {A} (a : A) : M A := fun s => (Ok a, s).

Definition bind {A B} (m : M A) (k : A -> M B) : M B :=
  fun s => match m s with
           | (Ok a, s') => k a s'
           | (Raise e, s') => (Raise e, s')
           end.

#[global] Instance M_ret : MRet M := @ret.
#[global] Instance M_bind : MBind M := fun A B k m => bind m k.

Definition raise {A} (e : exn) : M A := fun s => (Raise e, s).

Definition lift {A} (r : result A) : M A := fun s => (r, s).

(** [try: m except Exception as e: h e]; what [m] did before raising stays. *)
Definition try_except {A} (m : M A) (h : exn -> M A) : M A :=
  fun s => match m s with
           | (Ok a, s') => (Ok a, s')
           | (Raise e, s') => h e s'
           end.

Definition emit (e : event) : M unit :=
  fun s => (Ok tt, mkState (heap s) (out s ++ [e])).

(** A new object holding [df]; its reference is the next free one. *)
Definition alloc (df : DataFrame) : M loc :=
  fun s => (Ok (length (heap s)), mkState (heap s ++ [df]) (out s)).

Definition read (l : loc) : M DataFrame :=
  fun s => match heap s !! l with
           | Some df => (Ok df, s)
           | None => (Raise Unsupported, s)
           end.

(** In-place update of the object at [l]. *)
Definition update (l : loc) (f : DataFrame -> result DataFrame) : M unit :=
  fun s => match heap s !! l with
           | Some df =>
               match f df with
               | Ok df' => (Ok tt, mkState (<[l := df']> (heap s)) (out s))
               | Raise e => (Raise e, s)
               end
           | None => (Raise Unsupported, s)
           end.

Definition getitem (l : loc) (name : string) : M series :=
  df ← read l; lift (Frame.getitem name df).

Definition setitem (l : loc) (name : string) (v : series) : M unit :=
  update l (Frame.setitem name v).

(** ** The dictionary [stock_data] *)

(** A Python dict keeps insertion order; assigning to a key that is present
    replaces its value where it stands. *)
Abbreviation dict := (list (string * nat)) (only parsing).

Fixpoint dict_set (k : string) (v : loc) (d : dict) : dict :=
  match d with
  | [] => [(k, v)]
  | (k', v') :: d' =>
      if String.eqb k' k then (k', v) :: d' else (k', v') :: dict_set k v d'
  end.

(** ** The script *)

Definition adj_close_notice (stock : string) : string :=
  "Adjusted Close price not found for " +:+ stock
  +:+ ". Using Close price instead.".

Definition shares_notice (stock : string) : string :=
  "Could not fetch outstanding shares for " +:+ stock
  +:+ ". Using a constant value (1,000,000,000) instead.".

Definition date_error : string :=
  "Error: End date must fall after start date.".

Definition no_data_notice : string :=
  "No data found for the selected stock(s) and date range.".

Definition no_symbols_notice : string := "Please enter stock symbols.".

(** Lines 52-56: the frame of one symbol, a new object in both branches. *)
Definition extract (n_stocks : nat) (data : loc) (stock : string) : M loc :=
  if (1 <? n_stocks)%nat then
    d ← read data;
    sel ← lift (Frame.loc_symbol stock d);
    stock_df ← alloc sel;
    update stock_df Frame.droplevel1;;
    ret stock_df
  else
    d ← read data;
    alloc d.

(** Lines 60-64. *)
Definition resolve_price (stock : string) (stock_df : loc) : M unit :=
  df ← read stock_df;
  if negb (Frame.contains "Adj Close" df) then
    emit (st_warning (adj_close_notice stock));;
    close ← getitem stock_df "Close";
    setitem stock_df "Adj Close" close
  else ret tt.

(** Lines 68-75. *)
Definition resolve_shares (w : world) (i : nat) (stock : string) : M Z :=
  try_except
    (emit (yf_Ticker_info stock);;
     lift (sharesOutstanding w i stock))
    (fun _ =>
       emit (st_warning (shares_notice stock));;
       ret 1000000000%Z).

(** Lines 78-83. *)
Definition add_market_cap (stock_df : loc) (outstanding_shares : Z) : M unit :=
  adj ← getitem stock_df "Adj Close";
  setitem stock_df "Market Cap" (Frame.mul_scalar adj outstanding_shares);;
  cap ← getitem stock_df "Market Cap";
  setitem stock_df "Market Cap Change" (Frame.diff cap).

(** The body of the loop of line 50, up to the store into [stock_data]. *)
Definition process_stock (w : world) (n_stocks : nat) (data : loc)
    (i : nat) (stock : string) : M loc :=
  stock_df ← extract n_stocks data stock;
  resolve_price stock stock_df;;
  outstanding_shares ← resolve_shares w i stock;
  add_market_cap stock_df outstanding_shares;;
  ret stock_df.

(** Lines 49-86: [i] counts the entries of [stocks] already handled. *)
Fixpoint for_stocks (w : world) (n_stocks : nat) (data : loc) (i : nat)
    (stocks : list string) (stock_data : dict) : M dict :=
  match stocks with
  | [] => ret stock_data
  | stock :: rest =>
      stock_df ← process_stock w n_stocks data i stock;
      for_stocks w n_stocks data (S i) rest (dict_set stock stock_df stock_data)
  end.

(** Lines 90-92. *)
Fixpoint show_changes (stock_data : dict) : M unit :=
  match stock_data with
  | [] => ret tt
  | (stock, stock_df) :: rest =>
      emit (st_subheader (stock +:+ " - Daily Market Value Change"));;
      df ← read stock_df;
      chg ← lift (Frame.getitem "Market Cap Change" df);
      emit (st_dataframe
              (mkDF (index df) (FlatCols [("Market Cap Change", chg)])));;
      show_changes rest
  end.

(** Lines 98-106. *)
Fixpoint top_movers_data (stock_data : dict) : M (list mover) :=
  match stock_data with
  | [] => ret []
  | (stock, stock_df) :: rest =>
      chg ← getitem stock_df "Market Cap Change";
      let total_market_cap_change := Frame.sum chg in
      rows ← top_movers_data rest;
      ret (mkMover stock total_market_cap_change :: rows)
  end.

(** Lines 110-115. *)
Definition top_gainers (top_movers_df : list mover) : result (list mover) :=
  match Movers.sort_values false top_movers_df with
  | Ok sorted => Ok (Movers.head 5 sorted)
  | Raise e => Raise e
  end.

Definition top_losers (top_movers_df : list mover) : result (list mover) :=
  match Movers.sort_values true top_movers_df with
  | Ok sorted => Ok (Movers.head 5 sorted)
  | Raise e => Raise e
  end.

(** Lines 49-120, what is done with a fetched frame that is not empty. *)
Definition process_data (w : world) (stocks : list string) (data : loc)
  : M unit :=
  stock_data ← for_stocks w (length stocks) data 0 stocks [];
  emit (st_header "Market Value Changes");;
  show_changes stock_data;;
  emit (st_header "Top Movers During the Period");;
  top_movers_df ← top_movers_data stock_data;
  gainers ← lift (top_gainers top_movers_df);
  losers ← lift (top_losers top_movers_df);
  emit (st_subheader "Top Gainers");;
  emit (st_dataframe_movers gainers);;
  emit (st_subheader "Top Losers");;
  emit (st_dataframe_movers losers).

(** Lines 37-120, the body of the outer [try]. *)
Definition analyse (w : world) (stocks : list string)
    (start_date end_date : Z) : M unit :=
  emit (yf_download stocks start_date end_date);;
  fetched ← lift (download w stocks start_date end_date);
  data ← alloc fetched;
  d ← read data;
  if Frame.empty d then emit (st_warning no_data_notice)
  else process_data w stocks data.

(** Lines 21-125, from the three inputs of the page. *)
Definition main (w : world) (stocks_input : string)
    (start_date end_date : Z) : M unit :=
  let stocks := stocks_of stocks_input in
  if (start_date >=? end_date)%Z then emit (st_error date_error)
  else
    match stocks with
    | _ :: _ =>
        try_except (analyse w stocks start_date end_date)
          (fun e => emit (st_error ("An error occurred: " +:+ exn_str e)))
    | [] => emit (st_warning no_symbols_notice)
    end.

Definition init : state := mkState [] [].

(** The page of a run: the events it leaves, in order. *)
Definition page (w : world) (stocks_input : string)
    (start_date end_date : Z) : list event :=
  out (snd (main w stocks_input start_date end_date init)).

(** * Reasoning about runs *)

(** ** Relations between the state before and after a computation *)

Section Respects.
Context (R : relation state) `{!PreOrder R}.

(** Whatever [m] returns or raises, it moves the state along [R]. *)
Definition respects {A} (m : M A) : Prop := ∀ s, R s (m s).2.

Lemma respects_ret {A} (a : A) : respects (ret a).
Proof. intros s. simpl. reflexivity. Qed.

Lemma respects_mret {A} (a : A) : respects (mret a).
Proof. apply respects_ret. Qed.

Lemma respects_raise {A} (e : exn) : respects (@raise A e).
Proof. intros s. simpl. reflexivity. Qed.

Lemma respects_lift {A} (r : result A) : respects (lift r).
Proof. intros s. simpl. reflexivity. Qed.

Lemma respects_read (l : loc) : respects (read l).
Proof. intros s. unfold read. destruct (heap s !! l); simpl; reflexivity. Qed.

Lemma respects_bind {A B} (m : M A) (k : A → M B) :
  respects m → (∀ a, respects (k a)) → respects (m ≫= k).
Proof.
  intros Hm Hk s. unfold mbind, M_bind, bind.
  specialize (Hm s). destruct (m s) as [[a|e] s1]; simpl in *; [|done].
  etrans; [exact Hm|apply Hk].
Qed.

Lemma respects_try {A} (m : M A) (h : exn → M A) :
  respects m → (∀ e, respects (h e)) → respects (try_except m h).
Proof.
  intros Hm Hh s. unfold try_except.
  specialize (Hm s). destruct (m s) as [[a|e] s1]; simpl in *; [done|].
  etrans; [exact Hm|apply Hh].
Qed.

Lemma respects_if {A} (b : bool) (m1 m2 : M A) :
  respects m1 → respects m2 → respects (if b then m1 else m2).
Proof. by destruct b. Qed.

Lemma respects_getitem (l : loc) (name : string) :
  respects (getitem l name).
Proof.
  apply respects_bind; [apply respects_read|intros; apply respects_lift].
Qed.
End Respects.

(** ** The page only grows *)

(** [s'] shows the events of [s] followed by events that satisfy [P]. *)
Definition shows_more (P : event → Prop) : relation state :=
  λ s s', ∃ new, out s' = out s ++ new ∧ Forall P new.

#[global] Instance shows_more_preorder P : PreOrder (shows_more P).
Proof.
  split.
  - intros s. exists []. by rewrite app_nil_r.
  - intros s1 s2 s3 (n1 & E1 & F1) (n2 & E2 & F2). exists (n1 ++ n2).
    split; [by rewrite E2, E1, app_assoc|by apply Forall_app].
Qed.

Section Shows.
Context (P : event → Prop).

Lemma shows_emit (e : event) : P e → respects (shows_more P) (emit e).
Proof. intros He s. exists [e]. simpl. by split; [|constructor]. Qed.

Lemma shows_alloc (df : DataFrame) : respects (shows_more P) (alloc df).
Proof. intros s. exists []. simpl. by rewrite app_nil_r. Qed.

Lemma shows_update (l : loc) f : respects (shows_more P) (update l f).
Proof.
  intros s. exists []. unfold update.
  destruct (heap s !! l) as [df|]; [destruct (f df)|]; simpl;
    by rewrite app_nil_r.
Qed.
End Shows.

(** The rules of section [Respects] leave the preorder to the caller. *)
Ltac rapply lem := apply lem; [apply _ | ..].

(** Closes goals [respects (shows_more P) m] for straight-line code, leaving
    [P e] for each emitted event. *)
Ltac shows_step :=
  first
    [ rapply respects_bind; [|intros ?]
    | rapply respects_try; [|intros ?]
    | rapply respects_mret
    | rapply respects_ret
    | rapply respects_lift
    | rapply respects_raise
    | rapply respects_read
    | rapply respects_getitem
    | apply shows_alloc
    | apply shows_update
    | apply shows_emit
    | apply respects_if ].

(** The two notices that every run past the input checks must not show. *)
Definition benign (e : event) : Prop :=
  e ≠ st_error date_error ∧ e ≠ st_warning no_symbols_notice.

Ltac benign_tac :=
  split; unfold date_error, no_symbols_notice, no_data_notice,
    adj_close_notice, shares_notice; intros H; cbn in H; discriminate H.

Lemma extract_shows P n data stock :
  respects (shows_more P) (extract n data stock).
Proof. unfold extract. repeat shows_step. Qed.

Lemma resolve_price_shows stock l :
  respects (shows_more benign) (resolve_price stock l).
Proof.
  unfold resolve_price, setitem. repeat shows_step. benign_tac.
Qed.

Lemma resolve_shares_shows w i stock :
  respects (shows_more benign) (resolve_shares w i stock).
Proof. unfold resolve_shares. repeat shows_step; benign_tac. Qed.

Lemma add_market_cap_shows P l n :
  respects (shows_more P) (add_market_cap l n).
Proof. unfold add_market_cap, setitem. repeat shows_step. Qed.

Lemma process_stock_shows w n data i stock :
  respects (shows_more benign) (process_stock w n data i stock).
Proof.
  unfold process_stock.
  rapply respects_bind; [apply extract_shows|intros l].
  rapply respects_bind; [apply resolve_price_shows|intros _].
  rapply respects_bind; [apply resolve_shares_shows|intros sh].
  rapply respects_bind; [apply add_market_cap_shows|intros _].
  rapply respects_mret.
Qed.

Lemma for_stocks_shows w n data stocks : ∀ i sd,
  respects (shows_more benign) (for_stocks w n data i stocks sd).
Proof.
  induction stocks as [|stock rest IH]; intros i sd; simpl.
  - rapply respects_ret.
  - rapply respects_bind; [apply process_stock_shows|intros l; apply IH].
Qed.

Lemma show_changes_shows sd :
  respects (shows_more benign) (show_changes sd).
Proof.
  induction sd as [|[stock l] rest IH]; simpl.
  - rapply respects_ret.
  - repeat shows_step; try benign_tac. apply IH.
Qed.

Lemma top_movers_data_shows P sd :
  respects (shows_more P) (top_movers_data sd).
Proof.
  induction sd as [|[stock l] rest IH]; simpl.
  - rapply respects_ret.
  - rapply respects_bind; [rapply respects_getitem|intros chg].
    rapply respects_bind; [apply IH|intros rows]. rapply respects_mret.
Qed.

(** A run of [analyse] shows the call to [yf.download] first and benign
    events after it. *)
Lemma analyse_shows w stocks start_date end_date s :
  ∃ new,
    out (analyse w stocks start_date end_date s).2
    = out s ++ yf_download stocks start_date end_date :: new
    ∧ Forall benign new.
Proof.
  unfold analyse.
  set (rest := (fetched ← lift _; _)).
  assert (Hrest : respects (shows_more benign) rest).
  { subst rest. unfold process_data. repeat shows_step; try benign_tac.
    - apply for_stocks_shows.
    - apply show_changes_shows.
    - apply top_movers_data_shows. }
  unfold mbind at 1, M_bind, bind. simpl.
  destruct (Hrest (mkState (heap s) (out s ++ [yf_download stocks start_date end_date])))
    as (new & E & F).
  exists new. simpl in E. rewrite <- app_assoc in E. simpl in E.
  split; [|done].
  destruct (rest _) as [[[]|e] s1]; simpl in *; exact E.
Qed.

(** ** The input normaliser *)

Lemma split_cons sep s : ∃ w ws, PyStr.split sep s = w :: ws.
Proof.
  induction s as [|c s IH]; simpl; [by eauto|].
  destruct (Ascii.eqb c sep); [by eauto|].
  destruct IH as (w & ws & ->). by eauto.
Qed.

(** [stocks] is never the empty list: the [else] branch of line 124 cannot
    be reached. *)
Lemma stocks_of_cons stocks_input :
  ∃ stock rest, stocks_of stocks_input = stock :: rest.
Proof.
  unfold stocks_of.
  destruct (split_cons "," stocks_input) as (w & ws & ->). simpl. by eauto.
Qed.

(** Past the date check a run starts with the download of all of [stocks] and
    shows neither the date error nor the request for symbols. *)
Lemma main_runs w stocks_input start_date end_date :
  (start_date >=? end_date)%Z = false →
  ∃ new,
    page w stocks_input start_date end_date
    = yf_download (stocks_of stocks_input) start_date end_date :: new
    ∧ Forall benign new.
Proof.
  intros Hd. unfold page, main. rewrite Hd.
  destruct (stocks_of_cons stocks_input) as (stock & rest & E). rewrite E.
  unfold try_except.
  destruct (analyse_shows w (stock :: rest) start_date end_date init)
    as (new & Hout & Hben).
  destruct (analyse w (stock :: rest) start_date end_date init)
    as [[[]|e] s1]; simpl in *.
  - exists new. by split.
  - exists (new ++ [st_error ("An error occurred: " +:+ exn_str e)]).
    rewrite Hout. split; [done|].
    apply Forall_app. split; [done|].
    constructor; [|constructor]. benign_tac.
Qed.

Lemma benign_not_date_error new :
  Forall benign new → st_error date_error ∉ new.
Proof.
  intros F Hin. rewrite Forall_forall in F. by destruct (F _ Hin).
Qed.

Lemma benign_not_no_symbols new :
  Forall benign new → st_warning no_symbols_notice ∉ new.
Proof.
  intros F Hin. rewrite Forall_forall in F. by destruct (F _ Hin).
Qed.

(** C6. The date error is on the page exactly when [start_date >= end_date];
    in that case the run consists of this one message (nothing is fetched,
    no object is created), and otherwise the run starts with the download. *)
Theorem C6_date_validation w stocks_input start_date end_date :
  (st_error date_error ∈ page w stocks_input start_date end_date
   ↔ (start_date >= end_date)%Z)
  ∧ ((start_date >= end_date)%Z →
     main w stocks_input start_date end_date init
     = (Ok tt, mkState [] [st_error date_error]))
  ∧ ((start_date < end_date)%Z →
     ∃ new, page w stocks_input start_date end_date
            = yf_download (stocks_of stocks_input) start_date end_date :: new).
Proof.
  destruct (start_date >=? end_date)%Z eqn:Hd.
  - assert (Hge : (start_date >= end_date)%Z)
      by (apply Z.geb_le in Hd; lia).
    assert (Hmain : main w stocks_input start_date end_date init
                    = (Ok tt, mkState [] [st_error date_error])).
    { unfold main. by rewrite Hd. }
    split; [|split]; [|done|lia].
    unfold page. rewrite Hmain. simpl. split; [done|].
    intros _. apply list_elem_of_singleton. done.
  - assert (Hlt : (start_date < end_date)%Z).
    { destruct (Z.geb_spec start_date end_date); [done|lia]. }
    destruct (main_runs w stocks_input _ _ Hd) as (new & Hpage & Hben).
    split; [|split]; [|lia|by eauto].
    rewrite Hpage. split; [|lia].
    intros Hin. apply elem_of_cons in Hin as [Heq|Hin]; [discriminate|].
    by apply benign_not_date_error in Hin.
Qed.

(** C7, at the empty input.  [stocks] is the one-element list holding the
    empty string, so the run goes on to [yf.download] and never shows the
    request to enter symbols. *)
Theorem C7_empty_input_is_processed w start_date end_date :
  (start_date < end_date)%Z →
  stocks_of EmptyString = [EmptyString]
  ∧ (∃ new, page w EmptyString start_date end_date
            = yf_download [EmptyString] start_date end_date :: new)
  ∧ st_warning no_symbols_notice ∉ page w EmptyString start_date end_date.
Proof.
  intros Hlt.
  assert (Hd : (start_date >=? end_date)%Z = false).
  { destruct (Z.geb_spec start_date end_date); [lia|done]. }
  destruct (main_runs w EmptyString _ _ Hd) as (new & Hpage & Hben).
  split; [done|]. split; [by eauto|].
  rewrite Hpage. intros Hin.
  apply elem_of_cons in Hin as [Heq|Hin]; [discriminate|].
  by apply benign_not_no_symbols in Hin.
Qed.

Definition silent_world : world :=
  mkWorld (fun _ _ _ => Raise (ExternalError "no network"))
          (fun _ _ => Raise (ExternalError "no network")).

Lemma C7_witness :
  (0 < 1)%Z
  ∧ stocks_of EmptyString = [EmptyString]
  ∧ (∃ new, page silent_world EmptyString 0 1
            = yf_download [EmptyString] 0 1 :: new)
  ∧ st_warning no_symbols_notice ∉ page silent_world EmptyString 0 1.
Proof.
  split; [lia|]. apply (C7_empty_input_is_processed silent_world 0 1). lia.
Defined.

(** ** Columns of a flat frame *)

Lemma lookup_col_assign_eq name v cs :
  Frame.lookup_col name (Frame.assign_col name v cs) = Some v.
Proof.
  induction cs as [|[k w] cs IH]; simpl.
  - by rewrite String.eqb_refl.
  - destruct (String.eqb k name) eqn:E; simpl; by rewrite E.
Qed.

Lemma lookup_col_assign_ne name name' v cs :
  name ≠ name' →
  Frame.lookup_col name' (Frame.assign_col name v cs)
  = Frame.lookup_col name' cs.
Proof.
  intros Hne. induction cs as [|[k w] cs IH]; simpl.
  - destruct (String.eqb name name') eqn:E; [|done].
    by apply String.eqb_eq in E.
  - destruct (String.eqb k name) eqn:E; simpl.
    + apply String.eqb_eq in E. subst k.
      destruct (String.eqb name name') eqn:E'; [|done].
      by apply String.eqb_eq in E'.
    + by rewrite IH.
Qed.

Lemma lookup_col_Some_fst name cs v :
  Frame.lookup_col name cs = Some v → name ∈ map fst cs.
Proof.
  induction cs as [|[k w] cs IH]; simpl; [done|].
  destruct (String.eqb k name) eqn:E.
  - apply String.eqb_eq in E. subst. intros _. apply elem_of_cons. by left.
  - intros H. apply elem_of_cons. right. by apply IH.
Qed.

(** ** Rows of the derived series *)

Lemma mul_scalar_length s n : length (Frame.mul_scalar s n) = length s.
Proof. unfold Frame.mul_scalar. by rewrite length_map. Qed.

Lemma mul_scalar_lookup s n t :
  Frame.mul_scalar s n !! t = (λ c, Frame.mul_cell c n) <$> s !! t.
Proof. unfold Frame.mul_scalar. apply list_lookup_fmap. Qed.

Lemma diff_from_length prev s : length (Frame.diff_from prev s) = length s.
Proof. revert prev. induction s as [|c s IH]; intros prev; simpl; by f_equal. Qed.

Lemma diff_length s : length (Frame.diff s) = length s.
Proof. destruct s; simpl; [done|]. by rewrite diff_from_length. Qed.

Lemma diff_from_lookup prev s t a b :
  (prev :: s) !! t = Some a → (prev :: s) !! S t = Some b →
  Frame.diff_from prev s !! t = Some (Frame.sub_cell b a).
Proof.
  revert prev t. induction s as [|c s IH]; intros prev t Ha Hb.
  - by destruct t.
  - destruct t as [|t]; simpl in *.
    + by simplify_eq.
    + by apply IH.
Qed.

Lemma diff_lookup_0 s : s ≠ [] → Frame.diff s !! 0 = Some None.
Proof. by destruct s. Qed.

Lemma diff_lookup_S s t a b :
  s !! t = Some a → s !! S t = Some b →
  Frame.diff s !! S t = Some (Frame.sub_cell b a).
Proof.
  destruct s as [|c s]; [done|]. simpl. intros Ha Hb.
  by apply diff_from_lookup.
Qed.

(** ** Item access through a reference *)

Lemma getitem_run l name s df :
  heap s !! l = Some df →
  getitem l name s = (Frame.getitem name df, s).
Proof.
  intros Hl. unfold getitem, mbind, M_bind, bind, read. by rewrite Hl.
Qed.

Lemma setitem_run l name v s df cs :
  heap s !! l = Some df → cols df = FlatCols cs →
  setitem l name v s
  = (Ok tt,
     mkState (<[l := mkDF (index df) (FlatCols (Frame.assign_col name v cs))]>
                (heap s))
             (out s)).
Proof.
  intros Hl Hc. unfold setitem, update, Frame.setitem. by rewrite Hl, Hc.
Qed.

Lemma getitem_flat name df cs v :
  cols df = FlatCols cs → Frame.lookup_col name cs = Some v →
  Frame.getitem name df = Ok v.
Proof. intros Hc Hv. unfold Frame.getitem. by rewrite Hc, Hv. Qed.

Lemma getitem_Ok_flat name df v :
  Frame.getitem name df = Ok v →
  ∃ cs, cols df = FlatCols cs ∧ Frame.lookup_col name cs = Some v.
Proof.
  unfold Frame.getitem. destruct (cols df) as [cs|cs]; [|done].
  destruct (Frame.lookup_col name cs) eqn:E; [|done].
  intros [= <-]. by eauto.
Qed.

(** The frame that lines 78-83 leave behind. *)
Definition with_market_cap (df : DataFrame) (cs : list (string * series))
    (price : series) (n : Z) : DataFrame :=
  let cap := Frame.mul_scalar price n in
  mkDF (index df)
    (FlatCols (Frame.assign_col "Market Cap Change" (Frame.diff cap)
                 (Frame.assign_col "Market Cap" cap cs))).

Lemma add_market_cap_run l n s df cs price :
  heap s !! l = Some df → cols df = FlatCols cs →
  Frame.lookup_col "Adj Close" cs = Some price →
  add_market_cap l n s
  = (Ok tt, mkState (<[l := with_market_cap df cs price n]> (heap s)) (out s)).
Proof.
  intros Hl Hc Hp.
  assert (Hlt : l < length (heap s)) by (by eapply lookup_lt_Some).
  unfold add_market_cap, mbind, M_bind, bind.
  rewrite (getitem_run _ _ _ _ Hl), (getitem_flat _ _ _ _ Hc Hp).
  cbv beta iota.
  rewrite (setitem_run _ _ _ _ _ _ Hl Hc). cbv beta iota.
  set (cap := Frame.mul_scalar price n).
  set (df1 := mkDF (index df) (FlatCols (Frame.assign_col "Market Cap" cap cs))).
  set (s1 := mkState (<[l:=df1]> (heap s)) (out s)).
  assert (H1 : heap s1 !! l = Some df1)
    by (by apply list_lookup_insert_eq).
  rewrite (getitem_run _ _ _ _ H1).
  rewrite (getitem_flat "Market Cap" df1 _ cap eq_refl
             (lookup_col_assign_eq _ _ _)).
  cbv beta iota.
  rewrite (setitem_run _ _ _ _ _ _ H1 eq_refl).
  unfold with_market_cap. simpl. by rewrite list_insert_insert_eq.
Qed.

(** C1. From a frame with an effective price column and a share count [n],
    lines 78-83 leave the same frame with two more columns: the market cap is
    the price times [n] on every date, the change is the difference to the
    date before, and the change on the first date is NaN (absent), not zero.
    A NaN price gives a NaN market cap and NaN changes next to it. *)
Theorem C1_market_cap_transformer l n s df price :
  heap s !! l = Some df →
  Frame.getitem "Adj Close" df = Ok price →
  ∃ df' cap chg,
    add_market_cap l n s = (Ok tt, mkState (<[l := df']> (heap s)) (out s))
    ∧ index df' = index df
    ∧ Frame.getitem "Adj Close" df' = Ok price
    ∧ Frame.getitem "Market Cap" df' = Ok cap
    ∧ Frame.getitem "Market Cap Change" df' = Ok chg
    ∧ length cap = length price
    ∧ length chg = length price
    ∧ (∀ t p, price !! t = Some (Some p) →
              cap !! t = Some (Some (p * inject_Z n)%Q))
    ∧ (∀ t, price !! t = Some None → cap !! t = Some None)
    ∧ (price ≠ [] → chg !! 0%nat = Some None)
    ∧ (∀ t x y, cap !! t = Some (Some y) → cap !! S t = Some (Some x) →
                chg !! S t = Some (Some (x - y)%Q))
    ∧ (∀ t a b, cap !! t = Some a → cap !! S t = Some b →
                a = None ∨ b = None → chg !! S t = Some None).
Proof.
  intros Hl Hp.
  destruct (getitem_Ok_flat _ _ _ Hp) as (cs & Hc & Hcol).
  exists (with_market_cap df cs price n),
         (Frame.mul_scalar price n),
         (Frame.diff (Frame.mul_scalar price n)).
  split; [by apply add_market_cap_run|].
  split; [done|].
  split.
  { unfold Frame.getitem, with_market_cap. cbv beta zeta iota delta [cols].
    by rewrite !lookup_col_assign_ne, Hcol. }
  split.
  { unfold Frame.getitem, with_market_cap. cbv beta zeta iota delta [cols].
    by rewrite lookup_col_assign_ne, lookup_col_assign_eq. }
  split.
  { unfold Frame.getitem, with_market_cap. cbv beta zeta iota delta [cols].
    by rewrite lookup_col_assign_eq. }
  split; [apply mul_scalar_length|].
  split; [by rewrite diff_length, mul_scalar_length|].
  split.
  { intros t p Ht. by rewrite mul_scalar_lookup, Ht. }
  split.
  { intros t Ht. by rewrite mul_scalar_lookup, Ht. }
  split.
  { intros Hne. apply diff_lookup_0. by destruct price. }
  split.
  { intros t x y Ha Hb. by rewrite (diff_lookup_S _ _ _ _ Ha Hb). }
  intros t a b Ha Hb Hnan. rewrite (diff_lookup_S _ _ _ _ Ha Hb).
  by destruct Hnan as [-> | ->]; [destruct b|].
Qed.

(** Three trading days of one symbol, the example of the specification. *)
Definition three_days : DataFrame :=
  mkDF [1; 2; 3]%Z
       (FlatCols [("Adj Close", [Some 100%Q; Some 102%Q; Some 101%Q])]).

Lemma C1_witness :
  ∃ df' cap chg,
    add_market_cap 0 1000000000 (mkState [three_days] [])
    = (Ok tt, mkState (<[0%nat := df']> [three_days]) [])
    ∧ index df' = [1; 2; 3]%Z
    ∧ Frame.getitem "Adj Close" df'
      = Ok [Some 100%Q; Some 102%Q; Some 101%Q]
    ∧ Frame.getitem "Market Cap" df' = Ok cap
    ∧ Frame.getitem "Market Cap Change" df' = Ok chg
    ∧ length cap = 3%nat
    ∧ length chg = 3%nat
    ∧ (∀ t p, [Some 100%Q; Some 102%Q; Some 101%Q] !! t = Some (Some p) →
              cap !! t = Some (Some (p * inject_Z 1000000000)%Q))
    ∧ (∀ t, [Some 100%Q; Some 102%Q; Some 101%Q] !! t = Some None →
            cap !! t = Some None)
    ∧ ([Some 100%Q; Some 102%Q; Some 101%Q] ≠ [] → chg !! 0%nat = Some None)
    ∧ (∀ t x y, cap !! t = Some (Some y) → cap !! S t = Some (Some x) →
                chg !! S t = Some (Some (x - y)%Q))
    ∧ (∀ t a b, cap !! t = Some a → cap !! S t = Some b →
                a = None ∨ b = None → chg !! S t = Some None).
Proof.
  apply (C1_market_cap_transformer 0 1000000000
           (mkState [three_days] []) three_days
           [Some 100%Q; Some 102%Q; Some 101%Q]); reflexivity.
Defined.

(** C5. On a flat frame without "Adj Close" and with "Close", lines 60-64
    show one notice that names the symbol and add an "Adj Close" column that
    is the "Close" column, date by date; nothing else changes. *)
Theorem C5_close_fallback stock l s df close :
  heap s !! l = Some df →
  Frame.contains "Adj Close" df = false →
  Frame.getitem "Close" df = Ok close →
  ∃ df',
    resolve_price stock l s
    = (Ok tt,
       mkState (<[l := df']> (heap s))
               (out s ++ [st_warning (adj_close_notice stock)]))
    ∧ index df' = index df
    ∧ Frame.getitem "Adj Close" df' = Ok close
    ∧ Frame.getitem "Close" df' = Ok close.
Proof.
  intros Hl Hno Hclose.
  destruct (getitem_Ok_flat _ _ _ Hclose) as (cs & Hc & Hcol).
  exists (mkDF (index df) (FlatCols (Frame.assign_col "Adj Close" close cs))).
  split.
  { unfold resolve_price, mbind, M_bind, bind, read, emit.
    rewrite Hl, Hno. cbv beta iota delta [negb].
    set (s1 := mkState (heap s) (out s ++ [st_warning (adj_close_notice stock)])).
    assert (H1 : heap s1 !! l = Some df) by done.
    rewrite (getitem_run _ _ _ _ H1), Hclose. cbv beta iota.
    by rewrite (setitem_run _ _ _ _ _ _ H1 Hc). }
  split; [done|].
  split.
  - unfold Frame.getitem. cbv beta zeta iota delta [cols]. by rewrite lookup_col_assign_eq.
  - unfold Frame.getitem. cbv beta zeta iota delta [cols].
    by rewrite lookup_col_assign_ne, Hcol.
Qed.

Definition close_only : DataFrame :=
  mkDF [1; 2; 3]%Z
       (FlatCols [("Close", [Some 100%Q; Some 102%Q; Some 101%Q])]).

Lemma C5_witness :
  ∃ df',
    resolve_price "AAPL" 0 (mkState [close_only] [])
    = (Ok tt,
       mkState (<[0%nat := df']> [close_only])
               ([] ++ [st_warning (adj_close_notice "AAPL")]))
    ∧ index df' = [1; 2; 3]%Z
    ∧ Frame.getitem "Adj Close" df'
      = Ok [Some 100%Q; Some 102%Q; Some 101%Q]
    ∧ Frame.getitem "Close" df' = Ok [Some 100%Q; Some 102%Q; Some 101%Q].
Proof.
  apply (C5_close_fallback "AAPL" 0 (mkState [close_only] []) close_only
           [Some 100%Q; Some 102%Q; Some 101%Q]); reflexivity.
Defined.

(** With an "Adj Close" column lines 60-64 do nothing and show nothing. *)
Lemma resolve_price_present stock l s df :
  heap s !! l = Some df →
  Frame.contains "Adj Close" df = true →
  resolve_price stock l s = (Ok tt, s).
Proof.
  intros Hl Hyes. unfold resolve_price, mbind, M_bind, bind, read.
  by rewrite Hl, Hyes.
Qed.

(** ** The extractor *)

Lemma alloc_update_run s df f df' :
  f df = Ok df' →
  (stock_df ← alloc df; update stock_df f;; ret stock_df) s
  = (Ok (length (heap s)), mkState (heap s ++ [df']) (out s)).
Proof.
  intros Hf. unfold mbind, M_bind, bind, alloc, update, ret. simpl.
  rewrite list_lookup_middle by done. rewrite Hf. simpl.
  rewrite insert_app_r_alt by done. by rewrite Nat.sub_diag.
Qed.

(** The frame of [stock] cut out of a two-level frame. *)
Definition fields_of (stock : string) (d : DataFrame)
    (cs : list ((string * string) * list (option Q))) : DataFrame :=
  mkDF (index d)
       (FlatCols (map (λ c, (c.1.1, c.2)) (filter (λ c, c.1.2 = stock) cs))).

Lemma extract_multi_run n data stock s d cs :
  (1 < n)%nat →
  heap s !! data = Some d →
  cols d = MultiCols cs →
  filter (λ c, c.1.2 = stock) cs ≠ [] →
  extract n data stock s
  = (Ok (length (heap s)),
     mkState (heap s ++ [fields_of stock d cs]) (out s)).
Proof.
  intros Hn Hd Hc Hsel. unfold extract.
  apply Nat.ltb_lt in Hn. rewrite Hn.
  unfold mbind at 1, M_bind at 1, bind at 1, read. rewrite Hd.
  unfold mbind at 1, M_bind at 1, bind at 1, lift, Frame.loc_symbol.
  rewrite Hc.
  destruct (filter (λ c, c.1.2 = stock) cs) as [|c sel] eqn:E; [done|].
  rewrite (alloc_update_run _ _ Frame.droplevel1
             (mkDF (index d)
                (FlatCols (map (λ c, (c.1.1, c.2)) (c :: sel))))); [|done].
  unfold fields_of. by rewrite E.
Qed.

Lemma extract_single_run n data stock s d :
  (n ≤ 1)%nat →
  heap s !! data = Some d →
  extract n data stock s
  = (Ok (length (heap s)), mkState (heap s ++ [d]) (out s)).
Proof.
  intros Hn Hd. unfold extract.
  assert (E : (1 <? n)%nat = false) by (apply Nat.ltb_ge; lia).
  rewrite E. unfold mbind, M_bind, bind, read, alloc. by rewrite Hd.
Qed.

Lemma fields_of_columns (stock : string)
    (cs : list ((string * string) * list (option Q))) field col :
  (field, col) ∈ map (λ c, (c.1.1, c.2)) (filter (λ c, c.1.2 = stock) cs)
  ↔ ((field, stock), col) ∈ cs.
Proof.
  split.
  - intros Hin. apply list_elem_of_fmap in Hin as ([[f sy] v] & Heq & Hin).
    apply list_elem_of_filter in Hin as [Hsy Hin]. simpl in *.
    by simplify_eq.
  - intros Hin. apply list_elem_of_fmap.
    exists ((field, stock), col). split; [done|].
    apply list_elem_of_filter. by split.
Qed.

(** C4. With more than one requested symbol, lines 52-54 select the
    (field, [stock]) columns of the fetched frame and drop the symbol level:
    the outcome is a new object with the index of the fetched frame and a flat
    list of columns, one for each field that the fetched frame has for
    [stock], in the same order and with the same values.  With exactly one
    requested symbol, line 56 yields a new object equal to the fetched frame.
    In both cases the fetched object itself stays as it was. *)
Theorem C4_extractor n data stock s d :
  heap s !! data = Some d →
  (∀ cs, (1 < n)%nat → cols d = MultiCols cs →
         filter (λ c, c.1.2 = stock) cs ≠ [] →
         ∃ flat,
           extract n data stock s
           = (Ok (length (heap s)),
              mkState (heap s ++ [mkDF (index d) (FlatCols flat)]) (out s))
           ∧ flat = map (λ c, (c.1.1, c.2)) (filter (λ c, c.1.2 = stock) cs)
           ∧ (∀ field col, (field, col) ∈ flat ↔ ((field, stock), col) ∈ cs))
  ∧ (n = 1%nat →
     extract n data stock s
     = (Ok (length (heap s)), mkState (heap s ++ [d]) (out s)))
  ∧ data ≠ length (heap s)
  ∧ ∀ x, (heap s ++ [x]) !! data = Some d.
Proof.
  intros Hd.
  assert (Hlt : data < length (heap s)) by (by eapply lookup_lt_Some).
  split; [|split; [|split]].
  - intros cs Hn Hc Hsel. eexists. split; [|split; [reflexivity|]].
    + by apply extract_multi_run.
    + intros field col. apply fields_of_columns.
  - intros ->. by apply extract_single_run.
  - lia.
  - intros x. by rewrite lookup_app_l.
Qed.

Definition two_symbols : DataFrame :=
  mkDF [1; 2; 3]%Z
       (MultiCols
          [(("Adj Close", "AAPL"), [Some 100%Q; Some 102%Q; Some 101%Q]);
           (("Adj Close", "MSFT"), [Some 10%Q; Some 9%Q; Some 11%Q]);
           (("Close", "AAPL"), [Some 101%Q; Some 103%Q; Some 102%Q]);
           (("Close", "MSFT"), [Some 10%Q; Some 9%Q; Some 11%Q])]).

Lemma C4_witness :
  (∀ cs, (1 < 2)%nat → cols two_symbols = MultiCols cs →
         filter (λ c, c.1.2 = "MSFT") cs ≠ [] →
         ∃ flat,
           extract 2 0 "MSFT" (mkState [two_symbols] [])
           = (Ok 1%nat,
              mkState ([two_symbols] ++ [mkDF [1; 2; 3]%Z (FlatCols flat)]) [])
           ∧ flat = map (λ c, (c.1.1, c.2)) (filter (λ c, c.1.2 = "MSFT") cs)
           ∧ (∀ field col, (field, col) ∈ flat ↔ ((field, "MSFT"), col) ∈ cs))
  ∧ (2%nat = 1%nat →
     extract 2 0 "MSFT" (mkState [two_symbols] [])
     = (Ok 1%nat, mkState ([two_symbols] ++ [two_symbols]) []))
  ∧ 0%nat ≠ 1%nat
  ∧ ∀ x, ([two_symbols] ++ [x]) !! 0%nat = Some two_symbols.
Proof.
  apply (C4_extractor 2 0 "MSFT" (mkState [two_symbols] []) two_symbols).
  reflexivity.
Defined.

(** ** Failed share lookups against lookups that answer the default *)

(** The world in which every failed lookup answers 1,000,000,000. *)
Definition default_shares (w : world) : world :=
  mkWorld (download w)
          (λ i stock, match sharesOutstanding w i stock with
                      | Ok n => Ok n
                      | Raise _ => Ok 1000000000%Z
                      end).

Definition is_shares_notice (e : event) : bool :=
  match e with
  | st_warning msg => String.prefix "Could not fetch outstanding shares" msg
  | _ => false
  end.

(** The page without the notices of failed share lookups. *)
Definition quiet (page : list event) : list event :=
  filter (λ e, is_shares_notice e = false) page.

(** Two states with the same objects and the same page up to those notices. *)
Definition agree (s s' : state) : Prop :=
  heap s = heap s' ∧ quiet (out s) = out s'.

(** [m] and [m'] end alike from states that agree. *)
Definition simulates {A} (m m' : M A) : Prop :=
  ∀ s s', agree s s' → (m s).1 = (m' s').1 ∧ agree (m s).2 (m' s').2.

Section Simulation.

Lemma sim_ret {A} (a : A) : simulates (ret a) (ret a).
Proof. by intros s s' H. Qed.

Lemma sim_mret {A} (a : A) : simulates (mret a) (mret a).
Proof. apply sim_ret. Qed.

Lemma sim_lift {A} (r : result A) : simulates (lift r) (lift r).
Proof. by intros s s' H. Qed.

Lemma sim_bind {A B} (m m' : M A) (k k' : A → M B) :
  simulates m m' → (∀ a, simulates (k a) (k' a)) →
  simulates (m ≫= k) (m' ≫= k').
Proof.
  intros Hm Hk s s' Hs. unfold mbind, M_bind, bind.
  destruct (Hm s s' Hs) as [Hr Hs1].
  destruct (m s) as [[a|e] s1], (m' s') as [[a'|e'] s1'];
    simpl in *; simplify_eq; [by apply Hk|done].
Qed.

Lemma sim_try {A} (m m' : M A) (h h' : exn → M A) :
  simulates m m' → (∀ e, simulates (h e) (h' e)) →
  simulates (try_except m h) (try_except m' h').
Proof.
  intros Hm Hh s s' Hs. unfold try_except.
  destruct (Hm s s' Hs) as [Hr Hs1].
  destruct (m s) as [[a|e] s1], (m' s') as [[a'|e'] s1'];
    simpl in *; simplify_eq; [done|by apply Hh].
Qed.

Lemma sim_if {A} (b : bool) (m1 m1' m2 m2' : M A) :
  simulates m1 m1' → simulates m2 m2' →
  simulates (if b then m1 else m2) (if b then m1' else m2').
Proof. by destruct b. Qed.

Lemma sim_read l : simulates (read l) (read l).
Proof.
  intros s s' [Hh Ho]. unfold read. rewrite <- Hh.
  by destruct (heap s !! l).
Qed.

Lemma sim_alloc df : simulates (alloc df) (alloc df).
Proof.
  intros s s' [Hh Ho]. unfold alloc, agree. simpl. by rewrite Hh.
Qed.

Lemma sim_update l f : simulates (update l f) (update l f).
Proof.
  intros s s' [Hh Ho]. unfold update, agree. rewrite <- Hh.
  destruct (heap s !! l) as [df|]; [|done].
  destruct (f df); simpl; by rewrite ?Hh.
Qed.

Lemma sim_emit e :
  is_shares_notice e = false → simulates (emit e) (emit e).
Proof.
  intros He s s' [Hh Ho]. unfold emit, agree, quiet. simpl.
  split; [done|split; [done|]].
  rewrite filter_app, filter_cons_True by done.
  by rewrite <- Ho.
Qed.

Lemma sim_getitem l name : simulates (getitem l name) (getitem l name).
Proof.
  apply sim_bind; [apply sim_read|intros df; apply sim_lift].
Qed.

End Simulation.

Ltac sim_step :=
  first
    [ apply sim_if
    | apply sim_bind; [|intros ?]
    | apply sim_try; [|intros ?]
    | apply sim_mret
    | apply sim_ret
    | apply sim_lift
    | apply sim_read
    | apply sim_getitem
    | apply sim_alloc
    | apply sim_update
    | apply sim_emit; reflexivity ].

Lemma sim_resolve_shares w i stock :
  simulates (resolve_shares w i stock)
            (resolve_shares (default_shares w) i stock).
Proof.
  intros s s' [Hh Ho].
  unfold resolve_shares, try_except, mbind, M_bind, bind, emit, lift, ret,
    agree, quiet.
  simpl. destruct (sharesOutstanding w i stock) as [n|e]; simpl.
  - split; [done|split; [done|]].
    rewrite filter_app, filter_cons_True by done. by rewrite <- Ho.
  - split; [done|split; [done|]].
    rewrite !filter_app, filter_cons_True, filter_cons_False by done.
    simpl. rewrite filter_nil, app_nil_r. by rewrite <- Ho.
Qed.

Lemma sim_process_stock w n data i stock :
  simulates (process_stock w n data i stock)
            (process_stock (default_shares w) n data i stock).
Proof.
  unfold process_stock.
  apply sim_bind; [unfold extract; repeat sim_step|intros l].
  apply sim_bind; [unfold resolve_price, setitem; repeat sim_step|intros _].
  apply sim_bind; [apply sim_resolve_shares|intros sh].
  apply sim_bind; [unfold add_market_cap, setitem; repeat sim_step|intros _].
  apply sim_mret.
Qed.

Lemma sim_for_stocks w n data stocks : ∀ i sd,
  simulates (for_stocks w n data i stocks sd)
            (for_stocks (default_shares w) n data i stocks sd).
Proof.
  induction stocks as [|stock rest IH]; intros i sd; simpl.
  - apply sim_ret.
  - apply sim_bind; [apply sim_process_stock|intros l; apply IH].
Qed.

Lemma sim_show_changes sd : simulates (show_changes sd) (show_changes sd).
Proof.
  induction sd as [|[stock l] rest IH]; simpl.
  - apply sim_ret.
  - repeat sim_step. apply IH.
Qed.

Lemma sim_top_movers_data sd :
  simulates (top_movers_data sd) (top_movers_data sd).
Proof.
  induction sd as [|[stock l] rest IH]; simpl.
  - apply sim_ret.
  - apply sim_bind; [apply sim_getitem|intros chg].
    apply sim_bind; [apply IH|intros rows]. apply sim_mret.
Qed.

Lemma sim_main w stocks_input start_date end_date :
  simulates (main w stocks_input start_date end_date)
            (main (default_shares w) stocks_input start_date end_date).
Proof.
  unfold main.
  destruct (start_date >=? end_date)%Z; [by apply sim_emit|].
  destruct (stocks_of stocks_input) as [|stock rest]; [by apply sim_emit|].
  apply sim_try; [|intros e; by apply sim_emit].
  generalize (stock :: rest) as stocks. intros stocks.
  unfold analyse, process_data. simpl download.
  repeat sim_step.
  - apply sim_for_stocks.
  - apply sim_show_changes.
  - apply sim_top_movers_data.
Qed.

(** C8. When the lookup of the shares of a symbol fails, with whatever
    exception, lines 68-75 raise nothing: they yield 1,000,000,000 and show
    one notice that names the symbol.  The symbol is then handled with that
    number: when its frame was extracted and has a price, lines 78-83 give it
    a market cap of the price times 1,000,000,000 with the changes of that,
    the body of the loop returns, and the loop goes on with the symbols after
    it.  The handling of the symbol, and the whole run, are those of a world
    in which the lookup answers 1,000,000,000: same outcome, same objects,
    and the same page once the notices of failed lookups are left out. *)
Theorem C8_shares_fallback w i stock e :
  sharesOutstanding w i stock = Raise e →
  (∀ s, resolve_shares w i stock s
        = (Ok 1000000000%Z,
           mkState (heap s)
             (out s
              ++ [yf_Ticker_info stock;
                  st_warning
                    ("Could not fetch outstanding shares for " +:+ stock
                     +:+ ". Using a constant value (1,000,000,000) instead.")
                 ])))
  ∧ (∀ n data s l s1 s2 df1 price,
       extract n data stock s = (Ok l, s1) →
       resolve_price stock l s1 = (Ok tt, s2) →
       heap s2 !! l = Some df1 →
       Frame.getitem "Adj Close" df1 = Ok price →
       ∃ df,
         process_stock w n data i stock s
         = (Ok l,
            mkState (<[l := df]> (heap s2))
              (out s2 ++ [yf_Ticker_info stock;
                          st_warning (shares_notice stock)]))
         ∧ index df = index df1
         ∧ Frame.getitem "Adj Close" df = Ok price
         ∧ Frame.getitem "Market Cap" df
           = Ok (Frame.mul_scalar price 1000000000)
         ∧ Frame.getitem "Market Cap Change" df
           = Ok (Frame.diff (Frame.mul_scalar price 1000000000))
         ∧ ∀ rest sd,
             for_stocks w n data i (stock :: rest) sd s
             = for_stocks w n data (S i) rest (dict_set stock l sd)
                 (mkState (<[l := df]> (heap s2))
                    (out s2 ++ [yf_Ticker_info stock;
                                st_warning (shares_notice stock)])))
  ∧ (∀ n data s,
       let r := process_stock w n data i stock s in
       let r' := process_stock (default_shares w) n data i stock
                   (mkState (heap s) (quiet (out s))) in
       r.1 = r'.1 ∧ heap r.2 = heap r'.2 ∧ quiet (out r.2) = out r'.2)
  ∧ (∀ stocks_input start_date end_date,
       let r := main w stocks_input start_date end_date init in
       let r' := main (default_shares w) stocks_input start_date end_date
                   init in
       r.1 = r'.1 ∧ heap r.2 = heap r'.2 ∧ quiet (out r.2) = out r'.2).
Proof.
  intros Hfail.
  assert (HA : ∀ s, resolve_shares w i stock s
                    = (Ok 1000000000%Z,
                       mkState (heap s)
                         (out s ++ [yf_Ticker_info stock;
                                    st_warning (shares_notice stock)]))).
  { intros s.
    unfold resolve_shares, try_except, mbind, M_bind, bind, emit, lift, ret.
    simpl. rewrite Hfail. simpl. by rewrite <- app_assoc. }
  split; [exact HA|split; [|split]].
  - intros n data s l s1 s2 df1 price Hex Hrp Hl Hp.
    destruct (getitem_Ok_flat _ _ _ Hp) as (cs & Hc & Hcol).
    exists (with_market_cap df1 cs price 1000000000).
    assert (Hrun : process_stock w n data i stock s
                   = (Ok l,
                      mkState
                        (<[l := with_market_cap df1 cs price 1000000000]>
                           (heap s2))
                        (out s2 ++ [yf_Ticker_info stock;
                                    st_warning (shares_notice stock)]))).
    { unfold process_stock, mbind, M_bind, bind.
      rewrite Hex, Hrp, HA.
      by rewrite (add_market_cap_run l 1000000000
                    (mkState (heap s2)
                       (out s2 ++ [yf_Ticker_info stock;
                                   st_warning (shares_notice stock)]))
                    df1 cs price Hl Hc Hcol). }
    split; [exact Hrun|]. split; [done|].
    split.
    { unfold Frame.getitem, with_market_cap. cbv beta zeta iota delta [cols].
      by rewrite !lookup_col_assign_ne, Hcol. }
    split.
    { unfold Frame.getitem, with_market_cap. cbv beta zeta iota delta [cols].
      by rewrite lookup_col_assign_ne, lookup_col_assign_eq. }
    split.
    { unfold Frame.getitem, with_market_cap. cbv beta zeta iota delta [cols].
      by rewrite lookup_col_assign_eq. }
    intros rest sd. cbn [for_stocks]. unfold mbind, M_bind, bind.
    by rewrite Hrun.
  - intros n data s. simpl.
    destruct (sim_process_stock w n data i stock s
                (mkState (heap s) (quiet (out s)))) as (Hr & Hh & Ho);
      [done|]. done.
  - intros stocks_input start_date end_date. simpl.
    destruct (sim_main w stocks_input start_date end_date init init)
      as (Hr & Hh & Ho); [done|]. done.
Qed.

(** A lookup without network for a single symbol whose frame has a price:
    the frame gets its columns from 1,000,000,000 shares. *)
Lemma C8_witness :
  (∀ s, resolve_shares silent_world 0 "AAPL" s
        = (Ok 1000000000%Z,
           mkState (heap s)
             (out s
              ++ [yf_Ticker_info "AAPL";
                  st_warning
                    ("Could not fetch outstanding shares for " +:+ "AAPL"
                     +:+ ". Using a constant value (1,000,000,000) instead.")
                 ])))
  ∧ (∃ df,
       process_stock silent_world 1 0 0 "AAPL" (mkState [three_days] [])
       = (Ok 1,
          mkState (<[1 := df]> [three_days; three_days])
            ([] ++ [yf_Ticker_info "AAPL";
                    st_warning (shares_notice "AAPL")]))
       ∧ index df = index three_days
       ∧ Frame.getitem "Adj Close" df
         = Ok [Some 100%Q; Some 102%Q; Some 101%Q]
       ∧ Frame.getitem "Market Cap" df
         = Ok (Frame.mul_scalar [Some 100%Q; Some 102%Q; Some 101%Q]
                 1000000000)
       ∧ Frame.getitem "Market Cap Change" df
         = Ok (Frame.diff
                 (Frame.mul_scalar [Some 100%Q; Some 102%Q; Some 101%Q]
                    1000000000))
       ∧ ∀ rest sd,
           for_stocks silent_world 1 0 0 ("AAPL" :: rest) sd
             (mkState [three_days] [])
           = for_stocks silent_world 1 0 1 rest (dict_set "AAPL" 1 sd)
               (mkState (<[1 := df]> [three_days; three_days])
                  ([] ++ [yf_Ticker_info "AAPL";
                          st_warning (shares_notice "AAPL")])))
  ∧ (∀ n data s,
       let r := process_stock silent_world n data 0 "AAPL" s in
       let r' := process_stock (default_shares silent_world) n data 0 "AAPL"
                   (mkState (heap s) (quiet (out s))) in
       r.1 = r'.1 ∧ heap r.2 = heap r'.2 ∧ quiet (out r.2) = out r'.2)
  ∧ (∀ stocks_input start_date end_date,
       let r := main silent_world stocks_input start_date end_date init in
       let r' := main (default_shares silent_world) stocks_input start_date
                   end_date init in
       r.1 = r'.1 ∧ heap r.2 = heap r'.2 ∧ quiet (out r.2) = out r'.2).
Proof.
  pose proof (C8_shares_fallback silent_world 0 "AAPL"
                (ExternalError "no network") eq_refl) as (HA & HB & HC).
  split; [exact HA|split; [|exact HC]].
  apply (HB 1 0 (mkState [three_days] []) 1
           (mkState [three_days; three_days] [])
           (mkState [three_days; three_days] [])
           three_days [Some 100%Q; Some 102%Q; Some 101%Q]); reflexivity.
Defined.

(** ** Objects that a computation leaves alone *)

Local Open Scope nat_scope.

(** [m] keeps the invariant [I], whether it returns or raises, and what it
    returns satisfies [Q]. *)
Definition hoare {A} (I : state → Prop) (m : M A) (Q : A → Prop) : Prop :=
  ∀ s, I s → I (m s).2 ∧ ∀ a, (m s).1 = Ok a → Q a.

Section Hoare.
Context (I : state → Prop).

Lemma hoare_ret {A} (a : A) (Q : A → Prop) : Q a → hoare I (ret a) Q.
Proof. intros HQ s Hs. simpl. split; [done|]. by intros ? [= <-]. Qed.

Lemma hoare_mret {A} (a : A) (Q : A → Prop) : Q a → hoare I (mret a) Q.
Proof. apply hoare_ret. Qed.

Lemma hoare_weaken {A} (m : M A) (Q Q' : A → Prop) :
  hoare I m Q → (∀ a, Q a → Q' a) → hoare I m Q'.
Proof.
  intros Hm HQ s Hs. destruct (Hm s Hs) as [H1 H2]. split; [done|].
  intros a Ha. by apply HQ, H2.
Qed.

Lemma hoare_bind {A B} (m : M A) (k : A → M B) Q (R : B → Prop) :
  hoare I m Q → (∀ a, Q a → hoare I (k a) R) → hoare I (m ≫= k) R.
Proof.
  intros Hm Hk s Hs. unfold mbind, M_bind, bind.
  destruct (Hm s Hs) as [H1 H2].
  destruct (m s) as [[a|e] s1]; simpl in *; [|done].
  by apply Hk; [apply H2|].
Qed.

Lemma hoare_try {A} (m : M A) (h : exn → M A) (Q : A → Prop) :
  hoare I m Q → (∀ e, hoare I (h e) Q) → hoare I (try_except m h) Q.
Proof.
  intros Hm Hh s Hs. unfold try_except.
  destruct (Hm s Hs) as [H1 H2].
  destruct (m s) as [[a|e] s1]; simpl in *.
  - split; [done|]. intros ? [= <-]. by apply H2.
  - by apply Hh.
Qed.

Lemma hoare_if {A} (b : bool) (m1 m2 : M A) (Q : A → Prop) :
  hoare I m1 Q → hoare I m2 Q → hoare I (if b then m1 else m2) Q.
Proof. by destruct b. Qed.

Lemma hoare_lift {A} (r : result A) : hoare I (lift r) (λ _, True).
Proof. by intros s Hs. Qed.

Lemma hoare_read l : hoare I (read l) (λ _, True).
Proof. intros s Hs. unfold read. by destruct (heap s !! l). Qed.

Lemma hoare_getitem l name : hoare I (getitem l name) (λ _, True).
Proof.
  eapply hoare_bind; [apply hoare_read|]. intros df _. apply hoare_lift.
Qed.
End Hoare.

(** The objects of [base] are the first objects of the store, unchanged. *)
Definition keeps (base : list DataFrame) (s : state) : Prop :=
  base `prefix_of` heap s.

Section Keeps.
Context (base : list DataFrame).

Lemma keeps_emit e : hoare (keeps base) (emit e) (λ _, True).
Proof. by intros s Hs. Qed.

(** A new reference lies beyond the objects of [base]. *)
Lemma keeps_alloc df :
  hoare (keeps base) (alloc df) (λ l, length base ≤ l).
Proof.
  intros s Hs. unfold alloc, keeps in *. simpl. split.
  - by apply prefix_app_r.
  - intros ? [= <-]. by apply prefix_length.
Qed.

(** Updates beyond [base] keep it. *)
Lemma keeps_update l f :
  length base ≤ l → hoare (keeps base) (update l f) (λ _, True).
Proof.
  intros Hl s [k Hs]. unfold update, keeps.
  destruct (heap s !! l) as [df|]; simpl; [|split; [by exists k|done]].
  destruct (f df) as [df'|e]; simpl; [|split; [by exists k|done]].
  split; [|done]. rewrite Hs.
  rewrite insert_app_r_alt by done. by eexists.
Qed.

Lemma keeps_setitem l name v :
  length base ≤ l → hoare (keeps base) (setitem l name v) (λ _, True).
Proof. apply keeps_update. Qed.

Lemma keeps_extract n data stock :
  hoare (keeps base) (extract n data stock) (λ l, length base ≤ l).
Proof.
  unfold extract. apply hoare_if.
  - eapply hoare_bind; [apply hoare_read|intros d _].
    eapply hoare_bind; [apply hoare_lift|intros sel _].
    eapply hoare_bind; [apply keeps_alloc|intros l Hl].
    eapply hoare_bind; [by apply keeps_update|intros _ _].
    by apply hoare_mret.
  - eapply hoare_bind; [apply hoare_read|intros d _].
    apply keeps_alloc.
Qed.

Lemma keeps_resolve_price stock l :
  length base ≤ l → hoare (keeps base) (resolve_price stock l) (λ _, True).
Proof.
  intros Hl. unfold resolve_price.
  eapply hoare_bind; [apply hoare_read|intros df _].
  apply hoare_if; [|by apply hoare_ret].
  eapply hoare_bind; [apply keeps_emit|intros _ _].
  eapply hoare_bind; [apply hoare_getitem|intros close _].
  by apply keeps_setitem.
Qed.

Lemma keeps_resolve_shares w i stock :
  hoare (keeps base) (resolve_shares w i stock) (λ _, True).
Proof.
  unfold resolve_shares. apply hoare_try.
  - eapply hoare_bind; [apply keeps_emit|intros _ _]. apply hoare_lift.
  - intros e. eapply hoare_bind; [apply keeps_emit|intros _ _].
    by apply hoare_mret.
Qed.

Lemma keeps_add_market_cap l n :
  length base ≤ l → hoare (keeps base) (add_market_cap l n) (λ _, True).
Proof.
  intros Hl. unfold add_market_cap.
  eapply hoare_bind; [apply hoare_getitem|intros adj _].
  eapply hoare_bind; [by apply keeps_setitem|intros _ _].
  eapply hoare_bind; [apply hoare_getitem|intros cap _].
  by apply keeps_setitem.
Qed.

Lemma keeps_process_stock w n data i stock :
  hoare (keeps base) (process_stock w n data i stock)
        (λ l, length base ≤ l).
Proof.
  unfold process_stock.
  eapply hoare_bind; [apply keeps_extract|intros l Hl].
  eapply hoare_bind; [by apply keeps_resolve_price|intros _ _].
  eapply hoare_bind; [apply keeps_resolve_shares|intros sh _].
  eapply hoare_bind; [by apply keeps_add_market_cap|intros _ _].
  by apply hoare_mret.
Qed.

Lemma keeps_for_stocks w n data stocks : ∀ i sd,
  hoare (keeps base) (for_stocks w n data i stocks sd) (λ _, True).
Proof.
  induction stocks as [|stock rest IH]; intros i sd; simpl.
  - by apply hoare_ret.
  - eapply hoare_bind; [apply keeps_process_stock|intros l _]. apply IH.
Qed.

Lemma keeps_show_changes sd :
  hoare (keeps base) (show_changes sd) (λ _, True).
Proof.
  induction sd as [|[stock l] rest IH]; simpl.
  - by apply hoare_ret.
  - eapply hoare_bind; [apply keeps_emit|intros _ _].
    eapply hoare_bind; [apply hoare_read|intros df _].
    eapply hoare_bind; [apply hoare_lift|intros chg _].
    eapply hoare_bind; [apply keeps_emit|intros _ _]. apply IH.
Qed.

Lemma keeps_top_movers_data sd :
  hoare (keeps base) (top_movers_data sd) (λ _, True).
Proof.
  induction sd as [|[stock l] rest IH]; simpl.
  - by apply hoare_ret.
  - eapply hoare_bind; [apply hoare_getitem|intros chg _].
    eapply hoare_bind; [apply IH|intros rows _]. by apply hoare_mret.
Qed.
End Keeps.

Lemma keeps_lookup base s l df :
  keeps base s → base !! l = Some df → heap s !! l = Some df.
Proof. intros Hk Hl. by eapply prefix_lookup_Some. Qed.

Lemma keeps_process_data base w stocks data :
  hoare (keeps base) (process_data w stocks data) (λ _, True).
Proof.
  unfold process_data.
  eapply hoare_bind; [apply keeps_for_stocks|intros sd _].
  eapply hoare_bind; [apply keeps_emit|intros _ _].
  eapply hoare_bind; [apply keeps_show_changes|intros _ _].
  eapply hoare_bind; [apply keeps_emit|intros _ _].
  eapply hoare_bind; [apply keeps_top_movers_data|intros rows _].
  eapply hoare_bind; [apply hoare_lift|intros g _].
  eapply hoare_bind; [apply hoare_lift|intros lo _].
  eapply hoare_bind; [apply keeps_emit|intros _ _].
  eapply hoare_bind; [apply keeps_emit|intros _ _].
  eapply hoare_bind; [apply keeps_emit|intros _ _].
  apply keeps_emit.
Qed.

Lemma keeps_self s : keeps (heap s) s.
Proof. by unfold keeps. Qed.

(** ** Objects that a computation adds *)

(** The store has as many objects after as before. *)
Definition same_size : relation state :=
  λ s s', length (heap s') = length (heap s).

#[global] Instance same_size_preorder : PreOrder same_size.
Proof.
  split; [by intros s|].
  intros s1 s2 s3 H12 H23. unfold same_size in *. congruence.
Qed.

Lemma size_emit e : respects same_size (emit e).
Proof. by intros s. Qed.

Lemma size_update l f : respects same_size (update l f).
Proof.
  intros s. unfold update, same_size.
  destruct (heap s !! l) as [df|]; [|done].
  destruct (f df); simpl; [by rewrite length_insert|done].
Qed.

Ltac size_step :=
  first
    [ rapply respects_bind; [|intros ?]
    | rapply respects_try; [|intros ?]
    | rapply respects_mret
    | rapply respects_ret
    | rapply respects_lift
    | rapply respects_raise
    | rapply respects_read
    | rapply respects_getitem
    | apply size_update
    | apply size_emit
    | apply respects_if ].

Lemma size_show_changes sd : respects same_size (show_changes sd).
Proof.
  induction sd as [|[stock l] rest IH]; simpl.
  - rapply respects_ret.
  - repeat size_step. apply IH.
Qed.

Lemma size_top_movers_data sd : respects same_size (top_movers_data sd).
Proof.
  induction sd as [|[stock l] rest IH]; simpl.
  - rapply respects_ret.
  - rapply respects_bind; [rapply respects_getitem|intros chg].
    rapply respects_bind; [apply IH|intros rows]. rapply respects_mret.
Qed.

Lemma bind_size {A B} (m : M A) (k : A → M B) s c :
  length (heap (m s).2) ≤ c → (∀ a, respects same_size (k a)) →
  length (heap ((m ≫= k) s).2) ≤ c.
Proof.
  intros Hm Hk. unfold mbind, M_bind, bind.
  destruct (m s) as [[a|e] s1]; simpl in *; [|done].
  specialize (Hk a s1). unfold same_size in Hk. lia.
Qed.

Lemma extract_size n data stock s :
  length (heap (extract n data stock s).2) ≤ S (length (heap s)).
Proof.
  unfold extract, mbind, M_bind, bind, read, lift, alloc, update, ret.
  destruct (1 <? n), (heap s !! data) as [d|]; simpl; try lia.
  - destruct (Frame.loc_symbol stock d) as [sel|e]; simpl; [|lia].
    rewrite list_lookup_middle by done.
    destruct (Frame.droplevel1 sel); simpl;
      rewrite ?length_insert, length_app; simpl; lia.
  - rewrite length_app. simpl. lia.
Qed.

Lemma process_stock_size w n data i stock s :
  length (heap (process_stock w n data i stock s).2) ≤ S (length (heap s)).
Proof.
  unfold process_stock. apply bind_size; [apply extract_size|intros l].
  unfold resolve_price, resolve_shares, add_market_cap, setitem.
  repeat size_step.
Qed.

Lemma for_stocks_size w n data stocks : ∀ i sd s,
  length (heap (for_stocks w n data i stocks sd s).2)
  ≤ length (heap s) + length stocks.
Proof.
  induction stocks as [|stock rest IH]; intros i sd s; simpl; [lia|].
  pose proof (process_stock_size w n data i stock s) as H1.
  unfold mbind, M_bind, bind.
  destruct (process_stock w n data i stock s) as [[l|e] s1]; simpl in *;
    [|lia].
  specialize (IH (S i) (dict_set stock l sd) s1). lia.
Qed.

Lemma process_data_size w stocks data s :
  length (heap (process_data w stocks data s).2)
  ≤ length (heap s) + length stocks.
Proof.
  unfold process_data. apply bind_size; [apply for_stocks_size|intros sd].
  repeat size_step.
  - apply size_show_changes.
  - apply size_top_movers_data.
Qed.

(** A store that keeps [base] and has at most [c] objects more is [base]
    followed by at most [c] new objects. *)
Lemma kept_and_new (base h : list DataFrame) c :
  base `prefix_of` h → length h ≤ length base + c →
  ∃ new, h = base ++ new ∧ length new ≤ c.
Proof.
  intros [new ->] Hlen. exists new. split; [done|].
  rewrite length_app in Hlen. lia.
Qed.

(** A world that answers two symbols and one share count. *)
Definition two_symbol_world : world :=
  mkWorld (λ _ _ _, Ok two_symbols) (λ _ _, Ok 7%Z).

(** In a whole run the fetched frame is the first object, and it ends the
    run as it was fetched. *)
Lemma fetched_frame_after_run w stocks_input start_date end_date fetched :
  (start_date < end_date)%Z →
  download w (stocks_of stocks_input) start_date end_date = Ok fetched →
  heap (main w stocks_input start_date end_date init).2 !! 0 = Some fetched.
Proof.
  intros Hlt Hdl. unfold main.
  assert (Hd : (start_date >=? end_date)%Z = false).
  { destruct (Z.geb_spec start_date end_date); [lia|done]. }
  rewrite Hd.
  destruct (stocks_of_cons stocks_input) as (stock & rest & E).
  rewrite E in *.
  unfold try_except, analyse, mbind, M_bind, bind, emit, lift, alloc, read.
  rewrite Hdl. simpl.
  destruct (Frame.empty fetched); [done|].
  set (s1 := mkState [fetched] _).
  destruct (keeps_process_data [fetched] w (stock :: rest) 0 s1) as [Hk _];
    [apply (keeps_self s1)|].
  destruct (process_data w (stock :: rest) 0 s1) as [[[]|e] s2]; simpl in *;
    by eapply keeps_lookup.
Qed.

(** ** The total of a series *)

(** The sum over all dates in which an absent change counts as zero. *)
Definition sum_absent_as_zero (s : list (option Q)) : Q :=
  fold_left Qplus (map (λ c, default 0%Q c) s) 0%Q.

Lemma Qplus_zero_r (q : Q) : (q + 0)%Q = q.
Proof.
  destruct q as [a b]. unfold Qplus. simpl.
  f_equal; [lia|apply Pos.mul_1_r].
Qed.

Lemma sum_from_fold acc s :
  Frame.sum_from acc s = fold_left Qplus (map (λ c, default 0%Q c) s) acc.
Proof.
  revert acc. induction s as [|[x|] s IH]; intros acc; simpl; [done|..].
  - apply IH.
  - rewrite Qplus_zero_r. apply IH.
Qed.

(** Leaving NaN out and counting it as zero give the same total. *)
Lemma sum_skipna_is_zero_filled s : Frame.sum s = sum_absent_as_zero s.
Proof. apply sum_from_fold. Qed.

(** The total that lines 98-106 compute for an entry of [stock_data]. *)
Definition total_of (s : state) (entry : string * nat) (row : mover) : Prop :=
  Stock row = entry.1
  ∧ ∃ df chg,
      heap s !! entry.2 = Some df
      ∧ Frame.getitem "Market Cap Change" df = Ok chg
      ∧ Total row = sum_absent_as_zero chg.

(** Every frame of [stock_data] has its column of changes. *)
Definition enriched (s : state) (stock_data : list (string * nat)) : Prop :=
  ∀ stock l, (stock, l) ∈ stock_data →
    ∃ df chg, heap s !! l = Some df
              ∧ Frame.getitem "Market Cap Change" df = Ok chg.

Lemma top_movers_data_run sd s :
  enriched s sd →
  ∃ rows, top_movers_data sd s = (Ok rows, s) ∧ Forall2 (total_of s) sd rows.
Proof.
  induction sd as [|[stock l] rest IH]; intros Hen; simpl.
  - exists []. by split; [|constructor].
  - destruct (Hen stock l) as (df & chg & Hl & Hchg);
      [by apply elem_of_cons; left|].
    destruct IH as (rows & Hrun & Hrows).
    { intros k l' Hin. apply (Hen k l'). by apply elem_of_cons; right. }
    exists (mkMover stock (Frame.sum chg) :: rows). split.
    + unfold mbind, M_bind, bind.
      rewrite (getitem_run _ _ _ _ Hl), Hchg. cbv beta iota.
      by rewrite Hrun.
    + constructor; [|done]. split; [done|].
      exists df, chg. split; [done|split; [done|]].
      simpl. apply sum_skipna_is_zero_filled.
Qed.

(** C3. For every entry of [stock_data] whose frame has the column of
    changes, lines 98-106 produce one record, in the order of the entries,
    whose total is the sum of the changes over all dates of the series with
    an absent change, such as that of the first date, counted as zero. *)
Theorem C3_total_market_cap_change sd s :
  enriched s sd →
  ∃ rows,
    top_movers_data sd s = (Ok rows, s)
    ∧ Forall2 (total_of s) sd rows
    ∧ ∀ cap, cap ≠ [] →
        Frame.diff cap !! 0 = Some None
        ∧ Frame.sum (Frame.diff cap)
          = sum_absent_as_zero (drop 1 (Frame.diff cap)).
Proof.
  intros Hen. destruct (top_movers_data_run sd s Hen) as (rows & Hrun & Hrows).
  exists rows. split; [done|split; [done|]].
  intros cap Hcap. split; [by apply diff_lookup_0|].
  destruct cap as [|c cap]; [done|]. simpl.
  unfold Frame.sum. simpl. apply sum_from_fold.
Qed.

Definition enriched_three_days : DataFrame :=
  with_market_cap three_days
    [("Adj Close", [Some 100%Q; Some 102%Q; Some 101%Q])]
    [Some 100%Q; Some 102%Q; Some 101%Q] 1000000000.

Lemma C3_witness :
  ∃ rows,
    top_movers_data [("AAPL", 0)] (mkState [enriched_three_days] [])
    = (Ok rows, mkState [enriched_three_days] [])
    ∧ Forall2 (total_of (mkState [enriched_three_days] []))
              [("AAPL", 0)] rows
    ∧ ∀ cap, cap ≠ [] →
        Frame.diff cap !! 0 = Some None
        ∧ Frame.sum (Frame.diff cap)
          = sum_absent_as_zero (drop 1 (Frame.diff cap)).
Proof.
  apply (C3_total_market_cap_change [("AAPL", 0)]
           (mkState [enriched_three_days] [])).
  intros stock l Hin. apply list_elem_of_singleton in Hin as [= -> ->].
  eexists _, _. split; reflexivity.
Defined.

(** ** Sorting the rows *)

Definition ascending (a b : mover) : Prop := (Total a <= Total b)%Q.
Definition descending (a b : mover) : Prop := (Total b <= Total a)%Q.

Lemma insert_perm x l : Movers.insert x l ≡ₚ x :: l.
Proof.
  induction l as [|y l IH]; simpl; [done|].
  destruct (Qle_bool (Total x) (Total y)); [done|].
  rewrite IH. apply perm_swap.
Qed.

Lemma argsort_perm l : Movers.argsort l ≡ₚ l.
Proof.
  induction l as [|x l IH]; simpl; [done|].
  unfold Movers.argsort in *. simpl. by rewrite insert_perm, IH.
Qed.

Lemma insert_sorted x l :
  StronglySorted ascending l → StronglySorted ascending (Movers.insert x l).
Proof.
  induction 1 as [|y l Hl IH Hy]; simpl.
  - repeat constructor.
  - destruct (Qle_bool (Total x) (Total y)) eqn:E.
    + apply Qle_bool_iff in E. constructor; [by constructor|].
      constructor; [done|].
      eapply Forall_impl; [exact Hy|]. intros z Hz. unfold ascending in *.
      by eapply Qle_trans.
    + assert (Hyx : (Total y <= Total x)%Q).
      { apply Qlt_le_weak, Qnot_le_lt. intros H. apply Qle_bool_iff in H.
        congruence. }
      constructor; [done|].
      rewrite insert_perm. by constructor.
Qed.

Lemma argsort_sorted l : StronglySorted ascending (Movers.argsort l).
Proof.
  induction l as [|x l IH]; [constructor|].
  unfold Movers.argsort in *. simpl. by apply insert_sorted.
Qed.

Lemma rev_sorted l :
  StronglySorted ascending l → StronglySorted descending (rev l).
Proof.
  induction 1 as [|x l Hl IH Hx]; simpl; [constructor|].
  apply StronglySorted_app. split; [|split; [done|repeat constructor]].
  intros a b Ha Hb. apply list_elem_of_singleton in Hb as ->.
  rewrite Forall_forall in Hx. apply Hx.
  apply list_elem_of_In. apply list_elem_of_In in Ha.
  by apply in_rev.
Qed.

Lemma take_sorted (R : relation mover) n l :
  StronglySorted R l → StronglySorted R (take n l).
Proof.
  intros H. rewrite <- (take_drop n l) in H.
  by apply StronglySorted_app_1_l in H.
Qed.

Lemma sort_values_run ascending_flag rows :
  rows ≠ [] →
  ∃ sorted,
    Movers.sort_values ascending_flag rows = Ok sorted
    ∧ sorted ≡ₚ rows
    ∧ StronglySorted (if ascending_flag then ascending else descending)
                     sorted.
Proof.
  intros Hne. destruct rows as [|r rows]; [done|].
  eexists. split; [reflexivity|].
  destruct ascending_flag.
  - split; [apply argsort_perm|apply argsort_sorted].
  - split.
    + rewrite <- Permutation_rev, argsort_perm. by rewrite <- Permutation_rev.
    + apply rev_sorted, argsort_sorted.
Qed.

(** C2. From every collection of records that is not empty, lines 110-115
    give the top gainers as the first five rows of the collection sorted by
    descending total, and the top losers as the first five rows of the
    collection sorted by ascending total: both lists are sorted that way and
    have [min 5 n] rows, for [n] the number of records. *)
Theorem C2_top_movers rows :
  rows ≠ [] →
  ∃ gainers losers,
    top_gainers rows = Ok gainers
    ∧ top_losers rows = Ok losers
    ∧ length gainers = min 5 (length rows)
    ∧ length losers = min 5 (length rows)
    ∧ StronglySorted descending gainers
    ∧ StronglySorted ascending losers
    ∧ (∃ sorted, sorted ≡ₚ rows ∧ StronglySorted descending sorted
                 ∧ gainers = take 5 sorted)
    ∧ (∃ sorted, sorted ≡ₚ rows ∧ StronglySorted ascending sorted
                 ∧ losers = take 5 sorted).
Proof.
  intros Hne.
  destruct (sort_values_run false rows Hne) as (down & Hdown & Pdown & Sdown).
  destruct (sort_values_run true rows Hne) as (up & Hup & Pup & Sup).
  exists (take 5 down), (take 5 up).
  unfold top_gainers, top_losers, Movers.head. rewrite Hdown, Hup.
  assert (Ld : length down = length rows) by (by rewrite Pdown).
  assert (Lu : length up = length rows) by (by rewrite Pup).
  split; [done|split; [done|]].
  split; [by rewrite length_take, Ld|].
  split; [by rewrite length_take, Lu|].
  split; [by apply take_sorted|].
  split; [by apply take_sorted|].
  split; [by exists down|by exists up].
Qed.

Lemma C2_witness :
  ∃ gainers losers,
    top_gainers [mkMover "AAPL" 3; mkMover "MSFT" (-2); mkMover "GOOG" 7]
    = Ok gainers
    ∧ top_losers [mkMover "AAPL" 3; mkMover "MSFT" (-2); mkMover "GOOG" 7]
      = Ok losers
    ∧ length gainers = min 5 3
    ∧ length losers = min 5 3
    ∧ StronglySorted descending gainers
    ∧ StronglySorted ascending losers
    ∧ (∃ sorted,
         sorted ≡ₚ [mkMover "AAPL" 3; mkMover "MSFT" (-2); mkMover "GOOG" 7]
         ∧ StronglySorted descending sorted ∧ gainers = take 5 sorted)
    ∧ (∃ sorted,
         sorted ≡ₚ [mkMover "AAPL" 3; mkMover "MSFT" (-2); mkMover "GOOG" 7]
         ∧ StronglySorted ascending sorted ∧ losers = take 5 sorted).
Proof.
  apply (C2_top_movers
           [mkMover "AAPL" 3; mkMover "MSFT" (-2); mkMover "GOOG" 7]).
  discriminate.
Defined.

(** A frame built from no record has no column to sort by. *)
Lemma top_movers_of_nothing :
  top_gainers [] = Raise (KeyError "Total Market Cap Change")
  ∧ top_losers [] = Raise (KeyError "Total Market Cap Change").
Proof. done. Qed.

(** ** What a successful handling of one symbol leaves behind *)

Lemma bind_Ok {A B} (m : M A) (k : A → M B) s b s' :
  (m ≫= k) s = (Ok b, s') →
  ∃ a s1, m s = (Ok a, s1) ∧ k a s1 = (Ok b, s').
Proof.
  unfold mbind, M_bind, bind. destruct (m s) as [[a|e] s1]; [|done].
  intros H. by exists a, s1.
Qed.

(** Only the object at [l] may differ. *)
Definition touches (l : nat) : relation state :=
  λ s s', heap s' = heap s ∨ ∃ df, heap s' = <[l := df]> (heap s).

#[global] Instance touches_preorder l : PreOrder (touches l).
Proof.
  split.
  - intros s. by left.
  - intros s1 s2 s3 [H12|[df H12]] [H23|[df' H23]]; unfold touches.
    + left. congruence.
    + right. exists df'. congruence.
    + right. exists df. congruence.
    + right. exists df'. rewrite H23, H12. by rewrite list_insert_insert_eq.
Qed.

Lemma touches_emit l e : respects (touches l) (emit e).
Proof. intros s. by left. Qed.

Lemma touches_update l f : respects (touches l) (update l f).
Proof.
  intros s. unfold update.
  destruct (heap s !! l) as [df|]; [|by left].
  destruct (f df) as [df'|e]; [|by left]. right. by exists df'.
Qed.

Ltac touches_step :=
  first
    [ apply respects_if
    | rapply respects_bind; [|intros ?]
    | rapply respects_try; [|intros ?]
    | rapply respects_mret
    | rapply respects_ret
    | rapply respects_lift
    | rapply respects_read
    | rapply respects_getitem
    | apply touches_update
    | apply touches_emit ].

Lemma touches_resolve_price stock l :
  respects (touches l) (resolve_price stock l).
Proof. unfold resolve_price, setitem. repeat touches_step. Qed.

Lemma touches_resolve_shares l w i stock :
  respects (touches l) (resolve_shares w i stock).
Proof. unfold resolve_shares. repeat touches_step. Qed.

Lemma touches_add_market_cap l n :
  respects (touches l) (add_market_cap l n).
Proof. unfold add_market_cap, setitem. repeat touches_step. Qed.

(** The last object of the store is the only one that may differ. *)
Lemma touches_last h df0 s s' :
  heap s = h ++ [df0] → touches (length h) s s' →
  ∃ df, heap s' = h ++ [df].
Proof.
  intros Hs [H|[df H]]; rewrite H, Hs; [by eauto|].
  exists df. rewrite insert_app_r_alt by done. by rewrite Nat.sub_diag.
Qed.

Lemma extract_Ok n data stock s l s1 :
  extract n data stock s = (Ok l, s1) →
  l = length (heap s) ∧ ∃ df0, s1 = mkState (heap s ++ [df0]) (out s).
Proof.
  unfold extract, mbind, M_bind, bind, read, lift, alloc, update, ret.
  destruct (1 <? n); destruct (heap s !! data) as [d|]; try done.
  - destruct (Frame.loc_symbol stock d) as [sel|e]; [|done]. simpl.
    rewrite list_lookup_middle by done.
    destruct (Frame.droplevel1 sel) as [df'|e]; [|done]. simpl.
    rewrite insert_app_r_alt by done. rewrite Nat.sub_diag. simpl.
    intros [= <- <-]. by eauto.
  - simpl. intros [= <- <-]. by eauto.
Qed.

Lemma add_market_cap_Ok l n s s' df :
  heap s !! l = Some df →
  add_market_cap l n s = (Ok tt, s') →
  ∃ df' chg,
    heap s' !! l = Some df'
    ∧ Frame.getitem "Market Cap Change" df' = Ok chg.
Proof.
  intros Hl Hrun.
  assert (Hlt : l < length (heap s)) by (by eapply lookup_lt_Some).
  destruct (Frame.getitem "Adj Close" df) as [price|e] eqn:Hp.
  - destruct (getitem_Ok_flat _ _ _ Hp) as (cs & Hc & Hcol).
    rewrite (add_market_cap_run _ _ _ _ _ _ Hl Hc Hcol) in Hrun.
    injection Hrun as <-. simpl.
    exists (with_market_cap df cs price n),
           (Frame.diff (Frame.mul_scalar price n)).
    split; [by apply list_lookup_insert_eq|].
    unfold Frame.getitem, with_market_cap. cbv beta zeta iota delta [cols].
    by rewrite lookup_col_assign_eq.
  - unfold add_market_cap, mbind, M_bind, bind in Hrun.
    rewrite (getitem_run _ _ _ _ Hl), Hp in Hrun. done.
Qed.

(** The share lookups on a page, in order. *)
Definition lookups (page : list event) : list string :=
  omap (λ e, match e with yf_Ticker_info t => Some t | _ => None end) page.

Definition no_lookup (e : event) : Prop :=
  match e with yf_Ticker_info _ => False | _ => True end.

Lemma lookups_none evs : Forall no_lookup evs → lookups evs = [].
Proof.
  induction 1 as [|e evs He _ IH]; [done|].
  unfold lookups in *. simpl. destruct e; simpl in *; done.
Qed.

Lemma lookups_app a b : lookups (a ++ b) = lookups a ++ lookups b.
Proof. apply omap_app. Qed.

Lemma resolve_price_quiet stock l :
  respects (shows_more no_lookup) (resolve_price stock l).
Proof. unfold resolve_price, setitem. repeat shows_step. done. Qed.

Lemma resolve_shares_run w i stock s :
  ∃ n ev,
    resolve_shares w i stock s = (Ok n, mkState (heap s) (out s ++ ev))
    ∧ lookups ev = [stock].
Proof.
  unfold resolve_shares, try_except, mbind, M_bind, bind, emit, lift, ret.
  simpl. destruct (sharesOutstanding w i stock) as [n|e]; simpl.
  - by exists n, [yf_Ticker_info stock].
  - exists 1000000000%Z,
           [yf_Ticker_info stock; st_warning (shares_notice stock)].
    by rewrite <- app_assoc.
Qed.

(** A symbol that is handled without an exception has got one new object,
    the last of the store, which has the column of changes; the objects that
    were there are untouched; and its shares were looked up once. *)
Lemma process_stock_Ok w n data i stock s l s' :
  process_stock w n data i stock s = (Ok l, s') →
  l = length (heap s)
  ∧ (∃ df chg, heap s' = heap s ++ [df]
               ∧ Frame.getitem "Market Cap Change" df = Ok chg)
  ∧ ∃ ev, out s' = out s ++ ev ∧ lookups ev = [stock].
Proof.
  unfold process_stock. intros H.
  apply bind_Ok in H as (l0 & s1 & Hex & H).
  apply bind_Ok in H as ([] & s2 & Hrp & H).
  apply bind_Ok in H as (sh & s3 & Hrs & H).
  apply bind_Ok in H as ([] & s4 & Hmc & H).
  injection H as <- <-.
  apply extract_Ok in Hex as (-> & df0 & ->).
  pose proof (touches_resolve_price stock (length (heap s))
                (mkState (heap s ++ [df0]) (out s))) as T2.
  rewrite Hrp in T2. simpl in T2.
  destruct (touches_last (heap s) df0
              (mkState (heap s ++ [df0]) (out s)) s2 eq_refl T2) as (df2 & Hh2).
  destruct (resolve_price_quiet stock (length (heap s))
              (mkState (heap s ++ [df0]) (out s))) as (ev2 & Ho2 & Hq2).
  rewrite Hrp in Ho2. simpl in Ho2.
  destruct (resolve_shares_run w i stock s2) as (sh' & ev3 & Hrs' & Hl3).
  rewrite Hrs in Hrs'. injection Hrs' as -> ->.
  assert (Hl4 : heap (mkState (heap s2) (out s2 ++ ev3))
                !! length (heap s) = Some df2).
  { simpl. rewrite Hh2. by apply list_lookup_middle. }
  destruct (add_market_cap_Ok _ _ _ _ _ Hl4 Hmc) as (df4 & chg & Hl5 & Hchg).
  pose proof (touches_add_market_cap (length (heap s)) sh'
                (mkState (heap s2) (out s2 ++ ev3))) as T4.
  rewrite Hmc in T4. simpl in T4.
  destruct (touches_last (heap s) df2 _ _ Hh2 T4) as (df4' & Hh4).
  destruct (add_market_cap_shows no_lookup (length (heap s)) sh'
              (mkState (heap s2) (out s2 ++ ev3))) as (ev4 & Ho4 & Hq4).
  rewrite Hmc in Ho4. simpl in Ho4.
  split; [done|split].
  - exists df4', chg. split; [done|].
    rewrite Hh4, list_lookup_middle in Hl5 by done. by injection Hl5 as ->.
  - exists (ev2 ++ ev3 ++ ev4). split.
    + rewrite Ho4, Ho2. by rewrite <- !app_assoc.
    + rewrite !lookups_app, (lookups_none _ Hq2), (lookups_none _ Hq4), Hl3.
      done.
Qed.

(** ** What the handling of a symbol writes *)

(** C10. The handling of a symbol writes to one object only, the copy that
    lines 52-56 make for that symbol, which is a new object: whether the
    handling returns or raises, the store afterwards is the store from before
    followed by at most one new object, so the fetched frame and the frames
    of the symbols handled earlier stand where they stood, with the content
    they had.  The same holds of the whole loop and of the whole processing
    of the fetched frame, with at most one new object for each entry of
    [stocks]. *)
Theorem C10_fetched_frame_unchanged w n data i stocks sd s d :
  heap s !! data = Some d →
  (∀ stock,
     heap (process_stock w n data i stock s).2 !! data = Some d
     ∧ (∀ stock_df, (process_stock w n data i stock s).1 = Ok stock_df →
                    stock_df ≠ data)
     ∧ ∃ new,
         heap (process_stock w n data i stock s).2 = heap s ++ new
         ∧ length new ≤ 1
         ∧ ∀ stock_df, (process_stock w n data i stock s).1 = Ok stock_df →
                       stock_df = length (heap s) ∧ length new = 1)
  ∧ heap (for_stocks w n data i stocks sd s).2 !! data = Some d
  ∧ (∃ new, heap (for_stocks w n data i stocks sd s).2 = heap s ++ new
            ∧ length new ≤ length stocks)
  ∧ heap (process_data w stocks data s).2 !! data = Some d
  ∧ (∃ new, heap (process_data w stocks data s).2 = heap s ++ new
            ∧ length new ≤ length stocks).
Proof.
  intros Hd.
  assert (Hlt : data < length (heap s)) by (by eapply lookup_lt_Some).
  split; [|split; [|split; [|split]]].
  - intros stock.
    destruct (keeps_process_stock (heap s) w n data i stock s (keeps_self s))
      as [Hk Hl].
    split; [by eapply keeps_lookup|].
    split; [intros l Hok; specialize (Hl l Hok); lia|].
    destruct (kept_and_new (heap s)
                (heap (process_stock w n data i stock s).2) 1 Hk)
      as (new & Hnew & Hlen).
    { pose proof (process_stock_size w n data i stock s). lia. }
    exists new. split; [done|split; [done|]].
    intros l Hok.
    destruct (process_stock w n data i stock s) as [r s1] eqn:Hrun.
    simpl in *. subst r.
    apply process_stock_Ok in Hrun as (-> & (df & chg & Hh & _) & _).
    split; [done|].
    rewrite Hh in Hnew. apply app_inv_head in Hnew. by subst new.
  - destruct (keeps_for_stocks (heap s) w n data stocks i sd s (keeps_self s))
      as [Hk _].
    by eapply keeps_lookup.
  - destruct (keeps_for_stocks (heap s) w n data stocks i sd s (keeps_self s))
      as [Hk _].
    apply kept_and_new; [done|apply for_stocks_size].
  - destruct (keeps_process_data (heap s) w stocks data s (keeps_self s))
      as [Hk _].
    by eapply keeps_lookup.
  - destruct (keeps_process_data (heap s) w stocks data s (keeps_self s))
      as [Hk _].
    apply kept_and_new; [done|apply process_data_size].
Qed.

Lemma C10_witness :
  (∀ stock,
     heap (process_stock two_symbol_world 2 0 1 stock
             (mkState [two_symbols; three_days] [])).2 !! 0
     = Some two_symbols
     ∧ (∀ stock_df,
          (process_stock two_symbol_world 2 0 1 stock
             (mkState [two_symbols; three_days] [])).1 = Ok stock_df →
          stock_df ≠ 0)
     ∧ ∃ new,
         heap (process_stock two_symbol_world 2 0 1 stock
                 (mkState [two_symbols; three_days] [])).2
         = [two_symbols; three_days] ++ new
         ∧ length new ≤ 1
         ∧ ∀ stock_df,
             (process_stock two_symbol_world 2 0 1 stock
                (mkState [two_symbols; three_days] [])).1 = Ok stock_df →
             stock_df = length [two_symbols; three_days] ∧ length new = 1)
  ∧ heap (for_stocks two_symbol_world 2 0 1 ["MSFT"; "GOOG"] []
            (mkState [two_symbols; three_days] [])).2 !! 0
    = Some two_symbols
  ∧ (∃ new,
       heap (for_stocks two_symbol_world 2 0 1 ["MSFT"; "GOOG"] []
               (mkState [two_symbols; three_days] [])).2
       = [two_symbols; three_days] ++ new
       ∧ length new ≤ length ["MSFT"; "GOOG"])
  ∧ heap (process_data two_symbol_world ["MSFT"; "GOOG"] 0
            (mkState [two_symbols; three_days] [])).2 !! 0
    = Some two_symbols
  ∧ (∃ new,
       heap (process_data two_symbol_world ["MSFT"; "GOOG"] 0
               (mkState [two_symbols; three_days] [])).2
       = [two_symbols; three_days] ++ new
       ∧ length new ≤ length ["MSFT"; "GOOG"]).
Proof.
  apply (C10_fetched_frame_unchanged two_symbol_world 2 0 1
           ["MSFT"; "GOOG"] [] (mkState [two_symbols; three_days] [])
           two_symbols).
  reflexivity.
Defined.

(** ** The dictionary after the loop *)

(** The dictionary in which the [j]-th symbol of [stocks] has been assigned
    the reference [l0 + j], one symbol after the other. *)
Fixpoint assign_all (l0 : nat) (stocks : list string)
    (d : list (string * nat)) : list (string * nat) :=
  match stocks with
  | [] => d
  | stock :: rest => assign_all (S l0) rest (dict_set stock l0 d)
  end.

Lemma dict_set_keys k v (d : list (string * nat)) :
  map fst (dict_set k v d)
  = if bool_decide (k ∈ map fst d) then map fst d else map fst d ++ [k].
Proof.
  induction d as [|[k' v'] d IH]; simpl; [done|].
  destruct (String.eqb k' k) eqn:E; simpl.
  - apply String.eqb_eq in E as ->.
    rewrite bool_decide_eq_true_2; [done|]. apply elem_of_cons. by left.
  - rewrite IH. apply String.eqb_neq in E.
    destruct (bool_decide (k ∈ map fst d)) eqn:B.
    + apply bool_decide_eq_true in B.
      rewrite bool_decide_eq_true_2; [done|]. apply elem_of_cons. by right.
    + apply bool_decide_eq_false in B.
      rewrite bool_decide_eq_false_2; [done|].
      intros [->|H]%elem_of_cons; done.
Qed.

Lemma dict_set_elem_of_keys k v (d : list (string * nat)) k' :
  k' ∈ map fst (dict_set k v d) ↔ k' = k ∨ k' ∈ map fst d.
Proof.
  rewrite dict_set_keys. case_bool_decide as Hk.
  - split; [by right|]. by intros [->|].
  - rewrite elem_of_app, list_elem_of_singleton. tauto.
Qed.

Lemma dict_set_NoDup k v (d : list (string * nat)) :
  NoDup (map fst d) → NoDup (map fst (dict_set k v d)).
Proof.
  intros Hd. rewrite dict_set_keys. case_bool_decide as Hk; [done|].
  apply NoDup_app. split; [done|]. split; [|apply NoDup_singleton].
  intros x Hx ->%list_elem_of_singleton. done.
Qed.

Lemma elem_of_dict_set k0 v0 (d : list (string * nat)) k v :
  NoDup (map fst d) →
  (k, v) ∈ dict_set k0 v0 d →
  ((k, v) ∈ d ∧ k ≠ k0) ∨ (k = k0 ∧ v = v0).
Proof.
  induction d as [|[k' v'] d IH]; simpl; intros Hd Hin.
  - apply list_elem_of_singleton in Hin as [= -> ->]. by right.
  - apply NoDup_cons in Hd as [Hk' Hd].
    destruct (String.eqb k' k0) eqn:E.
    + apply String.eqb_eq in E as ->.
      apply elem_of_cons in Hin as [[= -> ->]|Hin]; [by right|].
      left. split; [by apply elem_of_cons; right|].
      intros ->. apply Hk'. by apply (list_elem_of_fmap_2 fst) in Hin.
    + apply String.eqb_neq in E.
      apply elem_of_cons in Hin as [[= -> ->]|Hin].
      * left. split; [by apply elem_of_cons; left|done].
      * destruct (IH Hd Hin) as [[Hin' Hne]|[-> ->]]; [|by right].
        left. split; [by apply elem_of_cons; right|done].
Qed.

Lemma elem_of_dict_set_weak k0 v0 (d : list (string * nat)) k v :
  (k, v) ∈ dict_set k0 v0 d → (k, v) ∈ d ∨ (k = k0 ∧ v = v0).
Proof.
  induction d as [|[k' v'] d IH]; simpl; intros Hin.
  - apply list_elem_of_singleton in Hin as [= -> ->]. by right.
  - destruct (String.eqb k' k0) eqn:E.
    + apply String.eqb_eq in E as ->.
      apply elem_of_cons in Hin as [[= -> ->]|Hin]; [by right|].
      left. by apply elem_of_cons; right.
    + apply elem_of_cons in Hin as [[= -> ->]|Hin].
      * left. by apply elem_of_cons; left.
      * destruct (IH Hin) as [Hin'|[-> ->]]; [|by right].
        left. by apply elem_of_cons; right.
Qed.

Lemma assign_all_NoDup stocks : ∀ l0 (d : list (string * nat)),
  NoDup (map fst d) → NoDup (map fst (assign_all l0 stocks d)).
Proof.
  induction stocks as [|k rest IH]; intros l0 d Hd; simpl; [done|].
  by apply IH, dict_set_NoDup.
Qed.

Lemma assign_all_elem_of_keys stocks : ∀ l0 (d : list (string * nat)) k,
  k ∈ map fst (assign_all l0 stocks d) ↔ k ∈ map fst d ∨ k ∈ stocks.
Proof.
  induction stocks as [|k0 rest IH]; intros l0 d k; simpl.
  - rewrite elem_of_nil. tauto.
  - rewrite IH, dict_set_elem_of_keys, elem_of_cons. tauto.
Qed.

(** An entry after the loop is an entry from before whose symbol did not
    come up, or the reference given to the last occurrence of its symbol. *)
Lemma assign_all_entry stocks : ∀ l0 (d : list (string * nat)) k l,
  NoDup (map fst d) →
  (k, l) ∈ assign_all l0 stocks d →
  ((k, l) ∈ d ∧ k ∉ stocks)
  ∨ ∃ j, stocks !! j = Some k ∧ l = l0 + j ∧ k ∉ drop (S j) stocks.
Proof.
  induction stocks as [|k0 rest IH]; intros l0 d k l Hd Hin; simpl in *.
  - left. split; [done|]. apply not_elem_of_nil.
  - destruct (IH (S l0) (dict_set k0 l0 d) k l (dict_set_NoDup _ _ _ Hd) Hin)
      as [[Hin' Hrest]|(j & Hj & -> & Hlast)].
    + destruct (elem_of_dict_set _ _ _ _ _ Hd Hin') as [[Hin0 Hne]|[-> ->]].
      * left. split; [done|]. intros [->|H]%elem_of_cons; done.
      * right. exists 0. split; [done|]. split; [lia|]. by rewrite drop_0.
    + right. exists (S j). split; [done|]. split; [lia|done].
Qed.

Lemma enriched_grow s s' sd :
  heap s `prefix_of` heap s' → enriched s sd → enriched s' sd.
Proof.
  intros Hp Hen k l Hin. destruct (Hen k l Hin) as (df & chg & Hl & Hchg).
  exists df, chg. split; [by eapply prefix_lookup_Some|done].
Qed.

Lemma for_stocks_Ok w n data stocks : ∀ i sd s sd' s',
  enriched s sd →
  for_stocks w n data i stocks sd s = (Ok sd', s') →
  sd' = assign_all (length (heap s)) stocks sd
  ∧ length (heap s') = length (heap s) + length stocks
  ∧ heap s `prefix_of` heap s'
  ∧ enriched s' sd'
  ∧ ∃ ev, out s' = out s ++ ev ∧ lookups ev = stocks.
Proof.
  induction stocks as [|stock rest IH]; intros i sd s sd' s' Hen Hrun;
    simpl in Hrun.
  - injection Hrun as <- <-. simpl.
    split; [done|split; [lia|split; [done|split; [done|]]]].
    exists []. by rewrite app_nil_r.
  - apply bind_Ok in Hrun as (l & s1 & Hps & Hrun).
    apply process_stock_Ok in Hps
      as (-> & (df & chg & Hh1 & Hchg) & (ev1 & Ho1 & Hl1)).
    assert (Hp1 : heap s `prefix_of` heap s1)
      by (rewrite Hh1; by apply prefix_app_r).
    assert (Hen1 : enriched s1 (dict_set stock (length (heap s)) sd)).
    { intros k l Hin.
      apply elem_of_dict_set_weak in Hin as [Hin|[-> ->]].
      - by apply (enriched_grow s s1 sd Hp1 Hen k l).
      - exists df, chg. split; [|done].
        rewrite Hh1. by apply list_lookup_middle. }
    destruct (IH _ _ _ _ _ Hen1 Hrun)
      as (-> & Hlen & Hp & Hen' & (ev & Ho & Hl)).
    rewrite Hh1, length_app in *. simpl in *.
    split; [by rewrite Nat.add_1_r|].
    split; [lia|].
    split; [by etrans|].
    split; [done|].
    exists (ev1 ++ ev). split.
    + by rewrite Ho, Ho1, app_assoc.
    + by rewrite lookups_app, Hl1, Hl.
Qed.

(** ** Duplicate symbols *)

(** On the input "AAPL, AAPL" the loop handles two entries and the top
    movers hold one record. *)
Lemma C9_counterexample :
  stocks_of "AAPL, AAPL" = ["AAPL"; "AAPL"]
  ∧ ∃ sd s1 rows,
      for_stocks two_symbol_world 2 0 0 ["AAPL"; "AAPL"] []
        (mkState [two_symbols] [])
      = (Ok sd, s1)
      ∧ lookups (out s1) = ["AAPL"; "AAPL"]
      ∧ length (heap s1) = 3
      ∧ sd = [("AAPL", 2)]
      ∧ top_movers_data sd s1 = (Ok rows, s1)
      ∧ map Stock rows = ["AAPL"]
      ∧ length rows ≠ length ["AAPL"; "AAPL"].
Proof.
  split; [reflexivity|].
  eexists _, _, _.
  split; [reflexivity|].
  split; [reflexivity|].
  split; [reflexivity|].
  split; [reflexivity|].
  split; [reflexivity|].
  split; [reflexivity|].
  simpl. lia.
Qed.


(** * Further properties of the script *)

(** ** The tokens of the input line *)

(** How often [sep] occurs in [s]. *)
Fixpoint count_char (sep : ascii) (s : string) : nat :=
  match s with
  | EmptyString => 0
  | String c s' => (if Ascii.eqb c sep then 1 else 0) + count_char sep s'
  end.

Lemma concat_cons2 sep x y (l : list string) :
  String.concat sep (x :: y :: l) = x +:+ sep +:+ String.concat sep (y :: l).
Proof. done. Qed.

(** X1. Joining the tokens with the separator gives the line back: [split]
    loses no character and keeps the order. *)
Theorem split_concat sep s :
  String.concat (String sep EmptyString) (PyStr.split sep s) = s.
Proof.
  induction s as [|c s IH]; [done|].
  cbn [PyStr.split].
  destruct (split_cons sep s) as (w & ws & Hs). rewrite Hs in *.
  destruct (Ascii.eqb c sep) eqn:E.
  - apply Ascii.eqb_eq in E as ->.
    rewrite concat_cons2, IH. done.
  - destruct ws as [|w' ws].
    + cbn in *. by rewrite IH.
    + rewrite concat_cons2 in *.
      change (String c w +:+ ?r) with (String c (w +:+ r)). by rewrite IH.
Qed.

Lemma split_app sep a b :
  PyStr.split sep (a +:+ String sep b)
  = PyStr.split sep a ++ PyStr.split sep b.
Proof.
  induction a as [|c a IH]; simpl.
  - by rewrite Ascii.eqb_refl.
  - destruct (Ascii.eqb c sep); [by rewrite IH|].
    rewrite IH. by destruct (split_cons sep a) as (w & ws & ->).
Qed.

Lemma split_no_sep sep s : count_char sep s = 0 → PyStr.split sep s = [s].
Proof.
  induction s as [|c s IH]; simpl; [done|].
  destruct (Ascii.eqb c sep); [done|]. intros H. by rewrite IH.
Qed.

(** X2. The symbols of a line with a comma are the symbols of what stands
    before the comma followed by those of what stands after it: no token is
    dropped, an empty one included. *)
Theorem stocks_of_comma a b :
  stocks_of (a +:+ "," +:+ b) = stocks_of a ++ stocks_of b.
Proof.
  unfold stocks_of. change ("," +:+ b) with (String "," b).
  by rewrite split_app, map_app.
Qed.

(** X3. A line without a comma is one symbol, the line stripped and in upper
    case, whatever the line is. *)
Theorem stocks_of_single a :
  count_char "," a = 0 → stocks_of a = [PyStr.upper (PyStr.strip a)].
Proof. unfold stocks_of. intros H. by rewrite split_no_sep. Qed.

Lemma stocks_of_single_witness :
  stocks_of "  brk.b " = [PyStr.upper (PyStr.strip "  brk.b ")].
Proof. apply (stocks_of_single "  brk.b "). reflexivity. Defined.

Lemma split_length sep s :
  length (PyStr.split sep s) = S (count_char sep s).
Proof.
  induction s as [|c s IH]; simpl; [done|].
  destruct (Ascii.eqb c sep); simpl; [by rewrite IH|].
  destruct (split_cons sep s) as (w & ws & Hs). rewrite Hs in *.
  simpl in *. done.
Qed.

(** X4. There is one symbol more than there are commas in the line. *)
Theorem stocks_of_length stocks_input :
  length (stocks_of stocks_input) = S (count_char "," stocks_input).
Proof. unfold stocks_of. by rewrite length_map, split_length. Qed.

Lemma split_tokens sep s :
  Forall (λ w, count_char sep w = 0) (PyStr.split sep s).
Proof.
  induction s as [|c s IH]; simpl; [by repeat constructor|].
  destruct (Ascii.eqb c sep) eqn:E; [by constructor|].
  destruct (split_cons sep s) as (w & ws & Hs). rewrite Hs in *.
  apply Forall_cons in IH as [Hw Hws].
  constructor; [|done]. simpl. by rewrite E, Hw.
Qed.

Lemma isspace_upper_char c :
  PyStr.isspace (PyStr.upper_char c) = PyStr.isspace c.
Proof. by destruct c as [[] [] [] [] [] [] [] []]. Qed.

Lemma upper_char_idemp c :
  PyStr.upper_char (PyStr.upper_char c) = PyStr.upper_char c.
Proof. by destruct c as [[] [] [] [] [] [] [] []]. Qed.

Lemma upper_char_comma c :
  Ascii.eqb (PyStr.upper_char c) "," = Ascii.eqb c ",".
Proof. by destruct c as [[] [] [] [] [] [] [] []]. Qed.

Lemma upper_idemp s : PyStr.upper (PyStr.upper s) = PyStr.upper s.
Proof.
  induction s as [|c s IH]; simpl; [done|].
  by rewrite upper_char_idemp, IH.
Qed.

Lemma lstrip_upper s : PyStr.lstrip (PyStr.upper s) = PyStr.upper (PyStr.lstrip s).
Proof.
  induction s as [|c s IH]; simpl; [done|].
  rewrite isspace_upper_char. by destruct (PyStr.isspace c).
Qed.

Lemma rstrip_upper s : PyStr.rstrip (PyStr.upper s) = PyStr.upper (PyStr.rstrip s).
Proof.
  induction s as [|c s IH]; simpl; [done|].
  rewrite IH, isspace_upper_char.
  destruct (PyStr.rstrip s); simpl; [|done].
  by destruct (PyStr.isspace c).
Qed.

Lemma lstrip_length s : String.length (PyStr.lstrip s) ≤ String.length s.
Proof.
  induction s as [|c s IH]; simpl; [done|].
  destruct (PyStr.isspace c); simpl; lia.
Qed.

(** What [lstrip] returns is empty or starts with a character that is not
    white space. *)
Lemma lstrip_head s :
  match PyStr.lstrip s with
  | EmptyString => True
  | String c _ => PyStr.isspace c = false
  end.
Proof.
  induction s as [|c s IH]; simpl; [done|].
  by destruct (PyStr.isspace c) eqn:E.
Qed.

Lemma rstrip_idemp s : PyStr.rstrip (PyStr.rstrip s) = PyStr.rstrip s.
Proof.
  induction s as [|c s IH]; simpl; [done|].
  destruct (PyStr.rstrip s) as [|c' r] eqn:E.
  - destruct (PyStr.isspace c) eqn:Ec; simpl; [done|]. by rewrite Ec.
  - simpl. simpl in IH. by rewrite IH.
Qed.

Lemma rstrip_keeps_head c s :
  PyStr.isspace c = false →
  ∃ r, PyStr.rstrip (String c s) = String c r.
Proof.
  intros Ec. simpl. destruct (PyStr.rstrip s); rewrite ?Ec; by eauto.
Qed.

Lemma strip_idemp s : PyStr.strip (PyStr.strip s) = PyStr.strip s.
Proof.
  unfold PyStr.strip.
  pose proof (lstrip_head s) as Hh.
  destruct (PyStr.lstrip s) as [|c t] eqn:E; [done|].
  destruct (rstrip_keeps_head c t Hh) as (r & Hr). rewrite Hr.
  assert (Hl : PyStr.lstrip (String c r) = String c r)
    by (simpl; by rewrite Hh).
  rewrite Hl, <- Hr. apply rstrip_idemp.
Qed.

Lemma count_char_lstrip sep s :
  count_char sep s = 0 → count_char sep (PyStr.lstrip s) = 0.
Proof.
  induction s as [|c s IH]; simpl; [done|].
  destruct (PyStr.isspace c); simpl; [|done]. intros H. apply IH. lia.
Qed.

Lemma count_char_rstrip sep s :
  count_char sep s = 0 → count_char sep (PyStr.rstrip s) = 0.
Proof.
  induction s as [|c s IH]; simpl; [done|]. intros H.
  assert (H1 : (if Ascii.eqb c sep then 1 else 0) = 0) by lia.
  assert (H2 : count_char sep (PyStr.rstrip s) = 0) by (apply IH; lia).
  destruct (PyStr.rstrip s) as [|c' r]; simpl in *.
  - destruct (PyStr.isspace c); simpl; lia.
  - lia.
Qed.

Lemma count_comma_upper s :
  count_char "," (PyStr.upper s) = count_char "," s.
Proof.
  induction s as [|c s IH]; simpl; [done|].
  by rewrite upper_char_comma, IH.
Qed.

(** X5. Every symbol is in normal form: trimming it or putting it in upper case
    changes nothing, and it holds no comma. *)
Theorem stocks_of_normal stocks_input :
  Forall (λ stock, PyStr.strip stock = stock
                   ∧ PyStr.upper stock = stock
                   ∧ count_char "," stock = 0)
         (stocks_of stocks_input).
Proof.
  unfold stocks_of. apply Forall_fmap.
  eapply Forall_impl; [apply (split_tokens "," stocks_input)|].
  intros w Hw. simpl. split; [|split].
  - unfold PyStr.strip at 1.
    rewrite lstrip_upper, rstrip_upper. fold (PyStr.strip (PyStr.strip w)).
    by rewrite strip_idemp.
  - apply upper_idemp.
  - rewrite count_comma_upper. unfold PyStr.strip.
    by apply count_char_rstrip, count_char_lstrip.
Qed.

(** ** Runs that stop early *)

Lemma date_check_passes start_date end_date :
  (start_date < end_date)%Z → (start_date >=? end_date)%Z = false.
Proof. intros H. destruct (Z.geb_spec start_date end_date); [lia|done]. Qed.

(** X6. When [yf.download] raises, the handler of line 122 shows the exception
    and the run is over: nothing was fetched, no object exists, no share
    count was looked up. *)
Theorem download_failure w stocks_input start_date end_date e :
  (start_date < end_date)%Z →
  download w (stocks_of stocks_input) start_date end_date = Raise e →
  main w stocks_input start_date end_date init
  = (Ok tt,
     mkState []
       [yf_download (stocks_of stocks_input) start_date end_date;
        st_error ("An error occurred: " +:+ exn_str e)]).
Proof.
  intros Hlt Hdl. unfold main. rewrite (date_check_passes _ _ Hlt).
  destruct (stocks_of_cons stocks_input) as (stock & rest & E).
  rewrite E in *.
  unfold try_except, analyse, mbind, M_bind, bind, emit, lift.
  by rewrite Hdl.
Qed.

Definition failing_world : world :=
  mkWorld (λ _ _ _, Raise (ExternalError "no network")) (λ _ _, Ok 1%Z).

Lemma download_failure_witness :
  main failing_world "AAPL" 0 1 init
  = (Ok tt,
     mkState []
       [yf_download (stocks_of "AAPL") 0 1;
        st_error ("An error occurred: "
                  +:+ exn_str (ExternalError "no network"))]).
Proof.
  apply (download_failure failing_world "AAPL" 0 1
           (ExternalError "no network")); [lia|reflexivity].
Defined.

(** X7. When the fetched frame is empty, line 42 shows the notice and the run
    is over: no symbol is handled and no share count is looked up. *)
Theorem empty_fetch w stocks_input start_date end_date d :
  (start_date < end_date)%Z →
  download w (stocks_of stocks_input) start_date end_date = Ok d →
  Frame.empty d = true →
  main w stocks_input start_date end_date init
  = (Ok tt,
     mkState [d]
       [yf_download (stocks_of stocks_input) start_date end_date;
        st_warning no_data_notice]).
Proof.
  intros Hlt Hdl Hempty. unfold main. rewrite (date_check_passes _ _ Hlt).
  destruct (stocks_of_cons stocks_input) as (stock & rest & E).
  rewrite E in *.
  unfold try_except, analyse, mbind, M_bind, bind, emit, lift, alloc, read.
  rewrite Hdl. simpl. by rewrite Hempty.
Qed.

Definition no_rows : DataFrame :=
  mkDF [] (FlatCols [("Close", []); ("Adj Close", [])]).

Definition empty_world : world :=
  mkWorld (λ _ _ _, Ok no_rows) (λ _ _, Ok 1%Z).

Lemma empty_fetch_witness :
  main empty_world "ZZZZ" 0 1 init
  = (Ok tt,
     mkState [no_rows]
       [yf_download (stocks_of "ZZZZ") 0 1; st_warning no_data_notice]).
Proof.
  apply (empty_fetch empty_world "ZZZZ" 0 1 no_rows);
    [lia|reflexivity|reflexivity].
Defined.

(** ** Error messages *)

Definition no_error (e : event) : Prop :=
  match e with st_error _ => False | _ => True end.

Lemma process_stock_no_error w n data i stock :
  respects (shows_more no_error) (process_stock w n data i stock).
Proof.
  unfold process_stock, extract, resolve_price, resolve_shares,
    add_market_cap, setitem.
  repeat shows_step; done.
Qed.

Lemma for_stocks_no_error w n data stocks : ∀ i sd,
  respects (shows_more no_error) (for_stocks w n data i stocks sd).
Proof.
  induction stocks as [|stock rest IH]; intros i sd; simpl.
  - rapply respects_ret.
  - rapply respects_bind; [apply process_stock_no_error|intros l; apply IH].
Qed.

Lemma show_changes_no_error sd :
  respects (shows_more no_error) (show_changes sd).
Proof.
  induction sd as [|[stock l] rest IH]; simpl.
  - rapply respects_ret.
  - repeat shows_step; done.
Qed.

Lemma analyse_no_error w stocks start_date end_date :
  respects (shows_more no_error) (analyse w stocks start_date end_date).
Proof.
  unfold analyse, process_data. repeat shows_step; try done.
  - apply for_stocks_no_error.
  - apply show_changes_no_error.
  - apply top_movers_data_shows.
Qed.

(** X8. No exception leaves the script, and a page holds at most one error
    message, which is the last thing on it. *)
Theorem errors_end_the_page w stocks_input start_date end_date :
  (main w stocks_input start_date end_date init).1 = Ok tt
  ∧ ∃ shown,
      Forall no_error shown
      ∧ (page w stocks_input start_date end_date = shown
         ∨ ∃ msg, page w stocks_input start_date end_date
                  = shown ++ [st_error msg]).
Proof.
  unfold page, main.
  destruct (start_date >=? end_date)%Z.
  { split; [done|]. exists []. split; [constructor|]. right. by eexists. }
  destruct (stocks_of stocks_input) as [|stock rest].
  { split; [done|]. eexists. split; [|by left]. by repeat constructor. }
  generalize (stock :: rest) as stocks. intros stocks.
  unfold try_except.
  destruct (analyse_no_error w stocks start_date end_date init)
    as (new & Hout & Hnew).
  destruct (analyse w stocks start_date end_date init) as [[[]|e] s1];
    simpl in *.
  - split; [done|]. exists new. split; [done|]. by left.
  - split; [done|]. exists new. split; [done|]. right.
    eexists. by rewrite Hout.
Qed.

(** ** The frame of a symbol as a value *)

#[global] Instance result_ret : MRet result := λ A a, Ok a.
#[global] Instance result_bind : MBind result :=
  λ A B k r, match r with Ok a => k a | Raise e => Raise e end.

(** Lines 52-56 on values. *)
Definition symbol_frame (n_stocks : nat) (d : DataFrame) (stock : string)
  : result DataFrame :=
  if 1 <? n_stocks then
    sel ← Frame.loc_symbol stock d; Frame.droplevel1 sel
  else Ok d.

(** Lines 60-64 on values. *)
Definition with_price (df : DataFrame) : result DataFrame :=
  if negb (Frame.contains "Adj Close" df) then
    close ← Frame.getitem "Close" df; Frame.setitem "Adj Close" close df
  else Ok df.

(** Lines 78-83 on values. *)
Definition with_caps (outstanding_shares : Z) (df : DataFrame)
  : result DataFrame :=
  adj ← Frame.getitem "Adj Close" df;
  df1 ← Frame.setitem "Market Cap"
          (Frame.mul_scalar adj outstanding_shares) df;
  cap ← Frame.getitem "Market Cap" df1;
  Frame.setitem "Market Cap Change" (Frame.diff cap) df1.

(** The share count that lines 68-75 settle on. *)
Definition shares_of (w : world) (i : nat) (stock : string) : Z :=
  match sharesOutstanding w i stock with
  | Ok n => n
  | Raise _ => 1000000000%Z
  end.

(** The frame that the loop body builds for the [i]-th entry. *)
Definition stock_frame (w : world) (n_stocks : nat) (d : DataFrame)
    (i : nat) (stock : string) : result DataFrame :=
  df0 ← symbol_frame n_stocks d stock;
  df1 ← with_price df0;
  with_caps (shares_of w i stock) df1.

(** What the loop body shows for a frame [df0] of the symbol. *)
Definition price_events (stock : string) (df0 : DataFrame) : list event :=
  if Frame.contains "Adj Close" df0 then []
  else [st_warning (adj_close_notice stock)].

Definition shares_events (w : world) (i : nat) (stock : string)
  : list event :=
  yf_Ticker_info stock
  :: match sharesOutstanding w i stock with
     | Ok _ => []
     | Raise _ => [st_warning (shares_notice stock)]
     end.

Definition stock_events (w : world) (n_stocks : nat) (d : DataFrame)
    (i : nat) (stock : string) : list event :=
  match symbol_frame n_stocks d stock with
  | Ok df0 => price_events stock df0 ++ shares_events w i stock
  | Raise _ => []
  end.

(** Reading and updating the last object of the store. *)
Lemma read_last h df o :
  read (length h) (mkState (h ++ [df]) o) = (Ok df, mkState (h ++ [df]) o).
Proof. unfold read. simpl. by rewrite list_lookup_middle. Qed.

Lemma update_last h df o f :
  update (length h) f (mkState (h ++ [df]) o)
  = match f df with
    | Ok df' => (Ok tt, mkState (h ++ [df']) o)
    | Raise e => (Raise e, mkState (h ++ [df]) o)
    end.
Proof.
  unfold update. simpl. rewrite list_lookup_middle by done.
  destruct (f df); [|done].
  rewrite insert_app_r_alt by done. by rewrite Nat.sub_diag.
Qed.

Lemma getitem_last h df o name :
  getitem (length h) name (mkState (h ++ [df]) o)
  = (Frame.getitem name df, mkState (h ++ [df]) o).
Proof. apply getitem_run. simpl. by apply list_lookup_middle. Qed.

Lemma extract_refines n data stock s d :
  heap s !! data = Some d →
  match symbol_frame n d stock with
  | Ok df0 =>
      extract n data stock s
      = (Ok (length (heap s)), mkState (heap s ++ [df0]) (out s))
  | Raise e => extract n data stock s = (Raise e, s)
  end.
Proof.
  intros Hd. destruct (1 <? n) eqn:Hn.
  - apply Nat.ltb_lt in Hn as Hlt.
    destruct (cols d) as [cs|cs] eqn:Hc.
    + unfold symbol_frame, extract, mbind, result_bind, M_bind, bind, read,
        lift, Frame.loc_symbol.
      rewrite Hn, Hd, Hc. by destruct s.
    + destruct (filter (λ c, c.1.2 = stock) cs) as [|c sel] eqn:E.
      * unfold symbol_frame, extract, mbind, result_bind, M_bind, bind, read,
          lift, Frame.loc_symbol.
        rewrite Hn, Hd, Hc, E. by destruct s.
      * assert (Hne : filter (λ c, c.1.2 = stock) cs ≠ []) by (by rewrite E).
        rewrite (extract_multi_run n data stock s d cs Hlt Hd Hc Hne).
        unfold symbol_frame, mbind, result_bind, Frame.loc_symbol,
          Frame.droplevel1, fields_of.
        by rewrite Hn, Hc, E.
  - apply Nat.ltb_ge in Hn as Hle.
    rewrite (extract_single_run n data stock s d Hle Hd).
    unfold symbol_frame. by rewrite Hn.
Qed.

Lemma resolve_price_last stock h df o :
  match with_price df with
  | Ok df' =>
      resolve_price stock (length h) (mkState (h ++ [df]) o)
      = (Ok tt, mkState (h ++ [df']) (o ++ price_events stock df))
  | Raise e =>
      resolve_price stock (length h) (mkState (h ++ [df]) o)
      = (Raise e, mkState (h ++ [df]) (o ++ price_events stock df))
  end.
Proof.
  unfold with_price, resolve_price, price_events, mbind, result_bind, M_bind,
    bind.
  rewrite read_last. cbv beta iota.
  destruct (Frame.contains "Adj Close" df); cbv beta iota delta [negb].
  - unfold ret. by rewrite app_nil_r.
  - unfold emit. cbv beta iota. cbn [heap out]. rewrite getitem_last.
    destruct (Frame.getitem "Close" df) as [close|e]; cbv beta iota; [|done].
    unfold setitem. rewrite update_last.
    by destruct (Frame.setitem "Adj Close" close df).
Qed.

Lemma resolve_shares_refines w i stock s :
  resolve_shares w i stock s
  = (Ok (shares_of w i stock),
     mkState (heap s) (out s ++ shares_events w i stock)).
Proof.
  unfold resolve_shares, shares_of, shares_events, try_except, mbind, M_bind,
    bind, emit, lift, ret.
  simpl. destruct (sharesOutstanding w i stock); simpl; [done|].
  by rewrite <- app_assoc.
Qed.

Lemma add_market_cap_last n h df o :
  match with_caps n df with
  | Ok df' =>
      add_market_cap (length h) n (mkState (h ++ [df]) o)
      = (Ok tt, mkState (h ++ [df']) o)
  | Raise e =>
      (add_market_cap (length h) n (mkState (h ++ [df]) o)).1 = Raise e
  end.
Proof.
  unfold with_caps, add_market_cap, mbind, M_bind, bind, result_bind, setitem.
  rewrite getitem_last.
  destruct (Frame.getitem "Adj Close" df) as [adj|e]; [|done].
  rewrite update_last.
  destruct (Frame.setitem "Market Cap" _ df) as [df1|e]; [|done].
  rewrite getitem_last.
  destruct (Frame.getitem "Market Cap" df1) as [cap|e]; [|done].
  rewrite update_last.
  by destruct (Frame.setitem "Market Cap Change" _ df1).
Qed.

Lemma process_stock_run w n data i stock s d :
  heap s !! data = Some d →
  match stock_frame w n d i stock with
  | Ok df =>
      process_stock w n data i stock s
      = (Ok (length (heap s)),
         mkState (heap s ++ [df]) (out s ++ stock_events w n d i stock))
  | Raise e => (process_stock w n data i stock s).1 = Raise e
  end.
Proof.
  intros Hd.
  pose proof (extract_refines n data stock s d Hd) as Hex.
  unfold stock_frame, stock_events, process_stock, mbind, result_bind, M_bind,
    bind.
  destruct (symbol_frame n d stock) as [df0|e]; rewrite Hex; [|done].
  cbv beta iota.
  pose proof (resolve_price_last stock (heap s) df0 (out s)) as Hrp.
  destruct (with_price df0) as [df1|e]; rewrite Hrp; [|done].
  cbv beta iota. rewrite resolve_shares_refines. cbv beta iota. cbn [heap out].
  pose proof (add_market_cap_last (shares_of w i stock) (heap s) df1
                ((out s ++ price_events stock df0) ++ shares_events w i stock))
    as Hmc.
  destruct (with_caps (shares_of w i stock) df1) as [df|e].
  - rewrite Hmc. cbv beta iota. unfold mret, M_ret, ret.
    by rewrite <- app_assoc.
  - destruct (add_market_cap _ _ _) as [[[]|e'] s']; simpl in *; congruence.
Qed.

(** The shape of the fetched frame that fits the number of symbols, which
    decides how lines 52-56 take a symbol out of it: columns of two levels
    for several symbols, flat columns for one. *)
Definition frame_fits (n_stocks : nat) (d : DataFrame) : Prop :=
  match cols d with
  | MultiCols _ => 1 < n_stocks
  | FlatCols _ => n_stocks ≤ 1
  end.

Definition flat (df : DataFrame) : Prop := ∃ cs, cols df = FlatCols cs.

Definition is_KeyError (e : exn) : Prop := ∃ k, e = KeyError k.

Lemma getitem_of_flat name df :
  flat df →
  (∃ v, Frame.getitem name df = Ok v)
  ∨ Frame.getitem name df = Raise (KeyError name).
Proof.
  intros [cs Hc]. unfold Frame.getitem. rewrite Hc.
  destruct (Frame.lookup_col name cs); by eauto.
Qed.

Lemma setitem_of_flat name v df :
  flat df → ∃ df', Frame.setitem name v df = Ok df' ∧ flat df'.
Proof.
  intros [cs Hc]. unfold Frame.setitem. rewrite Hc.
  eexists. split; [done|]. by eexists.
Qed.

Lemma symbol_frame_fits n d stock :
  frame_fits n d →
  match symbol_frame n d stock with
  | Ok df0 => flat df0
  | Raise e => is_KeyError e
  end.
Proof.
  unfold frame_fits, symbol_frame, mbind, result_bind, Frame.loc_symbol,
    Frame.droplevel1.
  destruct (cols d) as [cs|cs] eqn:Hc; intros Hn.
  - apply Nat.ltb_ge in Hn. rewrite Hn. by exists cs.
  - apply Nat.ltb_lt in Hn. rewrite Hn.
    destruct (filter _ cs); [by eexists|].
    cbv beta zeta iota delta [cols]. by eexists.
Qed.

Lemma with_price_flat df0 :
  flat df0 →
  match with_price df0 with
  | Ok df1 => flat df1
  | Raise e => is_KeyError e
  end.
Proof.
  intros Hf. unfold with_price, mbind, result_bind.
  destruct (negb (Frame.contains "Adj Close" df0)); [|done].
  destruct (getitem_of_flat "Close" df0 Hf) as [[v ->]| ->]; [|by eexists].
  by destruct (setitem_of_flat "Adj Close" v df0 Hf) as (df' & -> & Hf').
Qed.

Lemma with_caps_flat n df1 :
  flat df1 →
  match with_caps n df1 with
  | Ok df => flat df
  | Raise e => is_KeyError e
  end.
Proof.
  intros Hf. unfold with_caps, mbind, result_bind.
  destruct (getitem_of_flat "Adj Close" df1 Hf) as [[adj ->]| ->];
    [|by eexists].
  destruct (setitem_of_flat "Market Cap" (Frame.mul_scalar adj n) df1 Hf)
    as (df2 & -> & Hf2).
  destruct (getitem_of_flat "Market Cap" df2 Hf2) as [[cap ->]| ->];
    [|by eexists].
  by destruct (setitem_of_flat "Market Cap Change" (Frame.diff cap) df2 Hf2)
    as (df3 & -> & Hf3).
Qed.

(** On a frame of the fitting shape, the only exception of the handling of a
    symbol is a [KeyError]: for the symbol, which the frame does not have, or
    for "Close". *)
Lemma stock_frame_fits w n d i stock e :
  frame_fits n d → stock_frame w n d i stock = Raise e → is_KeyError e.
Proof.
  intros Hfit. unfold stock_frame, mbind, result_bind.
  pose proof (symbol_frame_fits n d stock Hfit) as H0.
  destruct (symbol_frame n d stock) as [df0|e0]; [|by intros [= <-]].
  pose proof (with_price_flat df0 H0) as H1.
  destruct (with_price df0) as [df1|e1]; [|by intros [= <-]].
  pose proof (with_caps_flat (shares_of w i stock) df1 H1) as H2.
  destruct (with_caps (shares_of w i stock) df1) as [df|e2]; [done|].
  by intros [= <-].
Qed.

(** X9. On a fetched frame of the fitting shape, the loop body computes
    [stock_frame]: when that is a frame, the body returns a new reference to
    it, leaves the other objects alone and shows [stock_events]; when it is
    an exception, that is a [KeyError], the body raises it, and the objects
    that were there are still there, unchanged. *)
Theorem process_stock_refines w n data i stock s d :
  heap s !! data = Some d →
  frame_fits n d →
  match stock_frame w n d i stock with
  | Ok df =>
      process_stock w n data i stock s
      = (Ok (length (heap s)),
         mkState (heap s ++ [df]) (out s ++ stock_events w n d i stock))
  | Raise e =>
      is_KeyError e
      ∧ (process_stock w n data i stock s).1 = Raise e
      ∧ heap s `prefix_of` heap (process_stock w n data i stock s).2
  end.
Proof.
  intros Hd Hfit.
  pose proof (process_stock_run w n data i stock s d Hd) as H.
  pose proof (stock_frame_fits w n d i stock) as Hkey.
  destruct (stock_frame w n d i stock) as [df|e]; [done|].
  split; [by apply Hkey|]. split; [done|].
  apply (keeps_process_stock (heap s) w n data i stock s), keeps_self.
Qed.

Lemma process_stock_refines_witness :
  match stock_frame two_symbol_world 2 two_symbols 0 "MSFT" with
  | Ok df =>
      process_stock two_symbol_world 2 0 0 "MSFT" (mkState [two_symbols] [])
      = (Ok 1,
         mkState ([two_symbols] ++ [df])
           ([] ++ stock_events two_symbol_world 2 two_symbols 0 "MSFT"))
  | Raise e =>
      is_KeyError e
      ∧ (process_stock two_symbol_world 2 0 0 "MSFT"
           (mkState [two_symbols] [])).1 = Raise e
      ∧ [two_symbols]
        `prefix_of` heap (process_stock two_symbol_world 2 0 0 "MSFT"
                            (mkState [two_symbols] [])).2
  end.
Proof.
  apply (process_stock_refines two_symbol_world 2 0 0 "MSFT"
           (mkState [two_symbols] []) two_symbols); [reflexivity|].
  unfold frame_fits. simpl. lia.
Defined.

(** ** The loop as a value *)

(** The frames of all entries, up to the first that raises. *)
Fixpoint stock_frames (w : world) (n_stocks : nat) (d : DataFrame) (i : nat)
    (stocks : list string) : result (list DataFrame) :=
  match stocks with
  | [] => Ok []
  | stock :: rest =>
      df ← stock_frame w n_stocks d i stock;
      dfs ← stock_frames w n_stocks d (S i) rest;
      Ok (df :: dfs)
  end.

Fixpoint loop_events (w : world) (n_stocks : nat) (d : DataFrame) (i : nat)
    (stocks : list string) : list event :=
  match stocks with
  | [] => []
  | stock :: rest =>
      stock_events w n_stocks d i stock
      ++ loop_events w n_stocks d (S i) rest
  end.

Lemma for_stocks_refines w n data d stocks : ∀ i sd s,
  heap s !! data = Some d →
  match stock_frames w n d i stocks with
  | Ok dfs =>
      for_stocks w n data i stocks sd s
      = (Ok (assign_all (length (heap s)) stocks sd),
         mkState (heap s ++ dfs) (out s ++ loop_events w n d i stocks))
  | Raise e => (for_stocks w n data i stocks sd s).1 = Raise e
  end.
Proof.
  induction stocks as [|stock rest IH]; intros i sd s Hd; simpl.
  - unfold ret. rewrite !app_nil_r. by destruct s.
  - pose proof (process_stock_run w n data i stock s d Hd) as Hps.
    unfold mbind, result_bind, M_bind, bind.
    destruct (stock_frame w n d i stock) as [df|e].
    + rewrite Hps.
      specialize (IH (S i) (dict_set stock (length (heap s)) sd)
                    (mkState (heap s ++ [df])
                             (out s ++ stock_events w n d i stock))).
      simpl in IH. rewrite lookup_app_l in IH
        by (by eapply lookup_lt_Some).
      specialize (IH Hd).
      destruct (stock_frames w n d (S i) rest) as [dfs|e].
      * rewrite IH. rewrite length_app, Nat.add_1_r. simpl.
        by rewrite <- !app_assoc.
      * done.
    + destruct (process_stock w n data i stock s) as [[l|e'] s1];
        simpl in *; congruence.
Qed.

Lemma stock_frames_fits w n d stocks : ∀ i e,
  frame_fits n d → stock_frames w n d i stocks = Raise e → is_KeyError e.
Proof.
  induction stocks as [|stock rest IH]; intros i e Hfit; simpl; [done|].
  unfold mbind, result_bind.
  pose proof (stock_frame_fits w n d i stock) as H1.
  destruct (stock_frame w n d i stock) as [df|e1];
    [|intros [= <-]; by apply H1].
  specialize (IH (S i)).
  destruct (stock_frames w n d (S i) rest) as [dfs|e2]; [done|].
  intros [= <-]. by apply IH.
Qed.

(** The [j]-th frame of the loop is the frame of the [j]-th entry. *)
Lemma stock_frames_lookup w n d stocks : ∀ i dfs j k,
  stock_frames w n d i stocks = Ok dfs →
  stocks !! j = Some k →
  ∃ df, dfs !! j = Some df ∧ stock_frame w n d (i + j) k = Ok df.
Proof.
  induction stocks as [|stock rest IH]; intros i dfs j k; simpl; [done|].
  unfold mbind, result_bind.
  destruct (stock_frame w n d i stock) as [df|e1] eqn:H1; [|done].
  destruct (stock_frames w n d (S i) rest) as [dfs'|e2] eqn:H2; [|done].
  intros [= <-] Hj. destruct j as [|j]; simpl in *.
  - injection Hj as <-. exists df. by rewrite Nat.add_0_r.
  - destruct (IH (S i) dfs' j k H2 Hj) as (df' & Hdf' & Hfr).
    exists df'. split; [done|]. by rewrite Nat.add_succ_r.
Qed.

(** A loop that returns has made the frames of [stock_frames]. *)
Lemma for_stocks_Ok_frames w n data d stocks i sd s sd' s' :
  heap s !! data = Some d →
  for_stocks w n data i stocks sd s = (Ok sd', s') →
  ∃ dfs, stock_frames w n d i stocks = Ok dfs ∧ heap s' = heap s ++ dfs.
Proof.
  intros Hd Hrun.
  pose proof (for_stocks_refines w n data d stocks i sd s Hd) as H.
  destruct (stock_frames w n d i stocks) as [dfs|e].
  - exists dfs. split; [done|]. rewrite Hrun in H. by injection H as _ ->.
  - by rewrite Hrun in H.
Qed.

(** ** Duplicate symbols, as the code has them *)

(** C9, as the code has it.  Every entry of [stocks], duplicates included, is
    handled on its own: its shares are looked up and it gets a frame object
    of its own, the [j]-th entry the [j]-th new object, which holds the frame
    made from the fetched frame and the [j]-th share lookup.  The frames are
    kept in a dictionary under the symbol, so the frame of a later occurrence
    takes the place of that of an earlier one: after the loop each symbol of
    [stocks] has one entry, which refers to the frame of its last occurrence,
    and the top movers get one record for each distinct symbol, whose total
    is the sum of the changes of the frame of its last occurrence. *)
Theorem C9_one_record_per_distinct_symbol w n data stocks s d sd s1 :
  heap s !! data = Some d →
  for_stocks w n data 0 stocks [] s = (Ok sd, s1) →
  (∃ ev, out s1 = out s ++ ev ∧ lookups ev = stocks)
  ∧ length (heap s1) = length (heap s) + length stocks
  ∧ (∃ dfs,
       heap s1 = heap s ++ dfs
       ∧ ∀ j k, stocks !! j = Some k →
                ∃ df, dfs !! j = Some df ∧ stock_frame w n d j k = Ok df)
  ∧ sd = assign_all (length (heap s)) stocks []
  ∧ NoDup (map fst sd)
  ∧ (∀ k, k ∈ map fst sd ↔ k ∈ stocks)
  ∧ (∀ k l, (k, l) ∈ sd →
       ∃ j df, stocks !! j = Some k ∧ l = length (heap s) + j
               ∧ (k ∉ drop (S j) stocks)
               ∧ stock_frame w n d j k = Ok df
               ∧ heap s1 !! l = Some df)
  ∧ ∃ rows,
      top_movers_data sd s1 = (Ok rows, s1)
      ∧ Forall2 (total_of s1) sd rows
      ∧ map Stock rows = map fst sd
      ∧ length rows ≤ length stocks
      ∧ ∀ row, row ∈ rows →
          ∃ j df chg,
            stocks !! j = Some (Stock row)
            ∧ (Stock row ∉ drop (S j) stocks)
            ∧ stock_frame w n d j (Stock row) = Ok df
            ∧ Frame.getitem "Market Cap Change" df = Ok chg
            ∧ Total row = sum_absent_as_zero chg.
Proof.
  intros Hd Hrun.
  assert (Hen0 : enriched s []).
  { intros k l Hin. by apply elem_of_nil in Hin. }
  destruct (for_stocks_Ok _ _ _ _ _ _ _ _ _ Hen0 Hrun)
    as (Hsd & Hlen & Hp & Hen & Hev).
  destruct (for_stocks_Ok_frames _ _ _ _ _ _ _ _ _ _ Hd Hrun)
    as (dfs & Hdfs & Hheap).
  assert (Hnd : NoDup (map fst sd)).
  { rewrite Hsd. apply assign_all_NoDup. apply NoDup_nil_2. }
  assert (Hentry : ∀ k l, (k, l) ∈ sd →
            ∃ j df, stocks !! j = Some k ∧ l = length (heap s) + j
                    ∧ (k ∉ drop (S j) stocks)
                    ∧ stock_frame w n d j k = Ok df
                    ∧ heap s1 !! l = Some df).
  { intros k l Hin. rewrite Hsd in Hin.
    destruct (assign_all_entry stocks (length (heap s)) [] k l
                (NoDup_nil_2 : NoDup (map fst [])) Hin)
      as [[H0 _]|(j & Hj & -> & Hlast)];
      [by apply elem_of_nil in H0|].
    destruct (stock_frames_lookup _ _ _ _ _ _ _ _ Hdfs Hj)
      as (df & Hdf & Hfr).
    exists j, df. split; [done|split; [done|split; [done|split; [done|]]]].
    rewrite Hheap, lookup_app_r by lia.
    by replace (length (heap s) + j - length (heap s)) with j by lia. }
  split; [done|split; [done|split]].
  { exists dfs. split; [done|]. intros j k Hj.
    by destruct (stock_frames_lookup _ _ _ _ _ _ _ _ Hdfs Hj)
      as (df & Hdf & Hfr); exists df. }
  split; [done|split; [done|split]].
  { intros k. rewrite Hsd, assign_all_elem_of_keys. simpl.
    rewrite elem_of_nil. tauto. }
  split; [exact Hentry|].
  destruct (top_movers_data_run sd s1 Hen) as (rows & Hrows & Htot).
  exists rows. split; [done|split; [done|]].
  assert (Hkeys : map Stock rows = map fst sd).
  { clear -Htot. induction Htot as [|kv r sd rows [Hs _] _ IH]; [done|].
    simpl. by rewrite Hs, IH. }
  split; [done|]. split.
  { assert (length rows = length (map fst sd))
      by (by rewrite <- Hkeys, length_map).
    assert (length (map fst sd) ≤ length stocks); [|lia].
    apply submseteq_length, NoDup_submseteq; [done|].
    intros k Hk. rewrite Hsd in Hk.
    apply assign_all_elem_of_keys in Hk as [Hk|Hk]; [|done].
    by apply elem_of_nil in Hk. }
  intros row Hrow. apply list_elem_of_lookup in Hrow as [t Ht].
  destruct (Forall2_lookup_r _ _ _ _ _ Htot Ht)
    as ([k l] & Hkl & Hs & df' & chg & Hl' & Hchg & Htotal).
  simpl in *.
  destruct (Hentry k l) as (j & df & Hj & -> & Hlast & Hfr & Hl);
    [by eapply list_elem_of_lookup_2|].
  rewrite Hl in Hl'. injection Hl' as <-.
  exists j, df, chg. rewrite Hs. done.
Qed.

(** A world in which the first lookup of shares answers 7 and every later
    one 11, so that the two occurrences of a symbol get different frames. *)
Definition recount_world : world :=
  mkWorld (λ _ _ _, Ok two_symbols)
          (λ i _, Ok (match i with O => 7%Z | S _ => 11%Z end)).

Lemma C9_witness :
  (∃ ev, out (for_stocks recount_world 2 0 0 ["AAPL"; "AAPL"] []
                (mkState [two_symbols] [])).2
         = [] ++ ev
         ∧ lookups ev = ["AAPL"; "AAPL"])
  ∧ length (heap (for_stocks recount_world 2 0 0 ["AAPL"; "AAPL"] []
                    (mkState [two_symbols] [])).2)
    = 1 + 2
  ∧ (∃ dfs,
       heap (for_stocks recount_world 2 0 0 ["AAPL"; "AAPL"] []
               (mkState [two_symbols] [])).2
       = [two_symbols] ++ dfs
       ∧ ∀ j k, ["AAPL"; "AAPL"] !! j = Some k →
                ∃ df, dfs !! j = Some df
                      ∧ stock_frame recount_world 2 two_symbols j k = Ok df)
  ∧ [("AAPL", 2)] = assign_all 1 ["AAPL"; "AAPL"] []
  ∧ NoDup (map fst [("AAPL", 2)])
  ∧ (∀ k, k ∈ map fst [("AAPL", 2)] ↔ k ∈ ["AAPL"; "AAPL"])
  ∧ (∀ k l, (k, l) ∈ [("AAPL", 2)] →
       ∃ j df, ["AAPL"; "AAPL"] !! j = Some k ∧ l = 1 + j
               ∧ (k ∉ drop (S j) ["AAPL"; "AAPL"])
               ∧ stock_frame recount_world 2 two_symbols j k = Ok df
               ∧ heap (for_stocks recount_world 2 0 0 ["AAPL"; "AAPL"] []
                         (mkState [two_symbols] [])).2 !! l = Some df)
  ∧ ∃ rows,
      top_movers_data [("AAPL", 2)]
        (for_stocks recount_world 2 0 0 ["AAPL"; "AAPL"] []
           (mkState [two_symbols] [])).2
      = (Ok rows,
         (for_stocks recount_world 2 0 0 ["AAPL"; "AAPL"] []
            (mkState [two_symbols] [])).2)
      ∧ Forall2 (total_of (for_stocks recount_world 2 0 0
                             ["AAPL"; "AAPL"] []
                             (mkState [two_symbols] [])).2)
                [("AAPL", 2)] rows
      ∧ map Stock rows = map fst [("AAPL", 2)]
      ∧ length rows ≤ length ["AAPL"; "AAPL"]
      ∧ ∀ row, row ∈ rows →
          ∃ j df chg,
            ["AAPL"; "AAPL"] !! j = Some (Stock row)
            ∧ (Stock row ∉ drop (S j) ["AAPL"; "AAPL"])
            ∧ stock_frame recount_world 2 two_symbols j (Stock row) = Ok df
            ∧ Frame.getitem "Market Cap Change" df = Ok chg
            ∧ Total row = sum_absent_as_zero chg.
Proof.
  apply (C9_one_record_per_distinct_symbol recount_world 2 0
           ["AAPL"; "AAPL"] (mkState [two_symbols] []) two_symbols
           [("AAPL", 2)]
           (for_stocks recount_world 2 0 0 ["AAPL"; "AAPL"] []
              (mkState [two_symbols] [])).2); reflexivity.
Defined.

(** In that world the one record of "AAPL, AAPL" has the total of the second
    occurrence, 11, and not that of the first, 7. *)
Lemma last_occurrence_total :
  (top_movers_data [("AAPL", 2)]
     (for_stocks recount_world 2 0 0 ["AAPL"; "AAPL"] []
        (mkState [two_symbols] [])).2).1
  = Ok [mkMover "AAPL" 11]
  ∧ (top_movers_data [("AAPL", 1)]
       (for_stocks recount_world 2 0 0 ["AAPL"; "AAPL"] []
          (mkState [two_symbols] [])).2).1
    = Ok [mkMover "AAPL" 7].
Proof. split; reflexivity. Qed.

(** ** What is shown for the dictionary *)

Definition change_table (df : DataFrame) (chg : list (option Q))
  : DataFrame :=
  mkDF (index df) (FlatCols [("Market Cap Change", chg)]).

Fixpoint shown_changes (h : list DataFrame)
    (stock_data : list (string * nat)) : list event :=
  match stock_data with
  | [] => []
  | (stock, l) :: rest =>
      match h !! l with
      | Some df =>
          match Frame.getitem "Market Cap Change" df with
          | Ok chg =>
              [st_subheader (stock +:+ " - Daily Market Value Change");
               st_dataframe (change_table df chg)]
          | Raise _ => []
          end
      | None => []
      end ++ shown_changes h rest
  end.

Lemma enriched_same_heap s s' sd :
  heap s' = heap s → enriched s sd → enriched s' sd.
Proof. intros Hh Hen k l Hin. rewrite Hh. by apply (Hen k l). Qed.

Lemma enriched_tail s kv sd : enriched s (kv :: sd) → enriched s sd.
Proof. intros Hen k l Hin. apply (Hen k l). by apply elem_of_cons; right. Qed.

Lemma show_changes_run sd : ∀ s,
  enriched s sd →
  show_changes sd s
  = (Ok tt, mkState (heap s) (out s ++ shown_changes (heap s) sd)).
Proof.
  induction sd as [|[stock l] rest IH]; intros s Hen; simpl.
  - unfold ret. rewrite app_nil_r. by destruct s.
  - destruct (Hen stock l) as (df & chg & Hl & Hchg);
      [by apply elem_of_cons; left|].
    unfold mbind, M_bind, bind, emit, read, lift. simpl.
    rewrite Hl, Hchg. simpl.
    rewrite IH.
    + simpl. by rewrite <- !app_assoc.
    + eapply enriched_same_heap; [|by eapply enriched_tail]. done.
Qed.

Lemma assign_all_nonempty stocks l0 (d : list (string * nat)) :
  stocks ≠ [] → assign_all l0 stocks d ≠ [].
Proof.
  destruct stocks as [|k rest]; [done|]. intros _ Hnil.
  assert (Hk : k ∈ map fst (assign_all l0 (k :: rest) d)).
  { apply assign_all_elem_of_keys. right. by apply elem_of_cons; left. }
  rewrite Hnil in Hk. by apply elem_of_nil in Hk.
Qed.

(** The last four things on the page of a run that went through. *)
Definition top_movers_events (gainers losers : list mover) : list event :=
  [st_subheader "Top Gainers"; st_dataframe_movers gainers;
   st_subheader "Top Losers"; st_dataframe_movers losers].

(** Lines 49-120 compute [stock_frames]: when every entry has a frame, the
    frames are the new objects, in the order of the entries, and the page
    gets the events of the loop, one table of changes for each entry of the
    dictionary and the two tables of top movers; when an entry raises, so do
    lines 49-120. *)
Lemma process_data_run w stocks data s d :
  heap s !! data = Some d →
  stocks ≠ [] →
  match stock_frames w (length stocks) d 0 stocks with
  | Ok dfs =>
      ∃ rows gainers losers,
        let sd := assign_all (length (heap s)) stocks [] in
        let h := heap s ++ dfs in
        process_data w stocks data s
        = (Ok tt,
           mkState h
             (out s ++ loop_events w (length stocks) d 0 stocks
              ++ st_header "Market Value Changes" :: shown_changes h sd
              ++ st_header "Top Movers During the Period"
                 :: top_movers_events gainers losers))
        ∧ Forall2 (total_of (mkState h [])) sd rows
        ∧ top_gainers rows = Ok gainers
        ∧ top_losers rows = Ok losers
  | Raise e => (process_data w stocks data s).1 = Raise e
  end.
Proof.
  intros Hd Hne.
  pose proof (for_stocks_refines w (length stocks) data d stocks 0 [] s Hd)
    as Hloop.
  unfold process_data.
  destruct (stock_frames w (length stocks) d 0 stocks) as [dfs|e].
  - set (sd := assign_all (length (heap s)) stocks []) in *.
    set (s1 := mkState (heap s ++ dfs)
                 (out s ++ loop_events w (length stocks) d 0 stocks)) in *.
    assert (Hen0 : enriched s []).
    { intros k l Hin. by apply elem_of_nil in Hin. }
    destruct (for_stocks_Ok _ _ _ _ _ _ _ _ _ Hen0 Hloop)
      as (_ & _ & _ & Hen & _).
    destruct (top_movers_data_run sd s1 Hen) as (rows & Hrows & Htot).
    assert (Hrne : rows ≠ []).
    { intros ->. apply Forall2_nil_inv_r in Htot.
      by apply (assign_all_nonempty stocks (length (heap s)) []). }
    destruct (sort_values_run false rows Hrne) as (down & Hdown & _).
    destruct (sort_values_run true rows Hrne) as (up & Hup & _).
    exists rows, (Movers.head 5 down), (Movers.head 5 up).
    split; [|split; [|split]].
    + unfold mbind, M_bind, bind. rewrite Hloop. cbv beta iota.
      unfold emit at 1. cbv beta iota.
      rewrite show_changes_run
        by (eapply enriched_same_heap; [|exact Hen]; done).
      cbv beta iota. unfold emit at 1. cbv beta iota.
      assert (Hrows' : ∀ o, top_movers_data sd (mkState (heap s1) o)
                            = (Ok rows, mkState (heap s1) o)).
      { intros o.
        destruct (top_movers_data_run sd (mkState (heap s1) o))
          as (rows' & Hr' & Ht'); [by eapply enriched_same_heap|].
        rewrite Hr'. f_equal. f_equal.
        clear -Htot Ht'. revert rows' Ht'.
        induction Htot as [|kv r sd rows [Hs (df & chg & H1 & H2 & H3)] _ IH];
          intros rows' Ht'.
        - by apply Forall2_nil_inv_l in Ht'.
        - apply Forall2_cons_inv_l in Ht'
            as (r' & rows'' & [Hs' (df' & chg' & H1' & H2' & H3')] & Ht' & ->).
          simpl in *. rewrite H1 in H1'. injection H1' as <-.
          rewrite H2 in H2'. injection H2' as <-.
          f_equal; [|by apply IH].
          destruct r, r'. simpl in *. congruence. }
      cbn [heap out]. rewrite Hrows'. cbv beta iota.
      unfold lift, top_gainers, top_losers. rewrite Hdown, Hup.
      cbv beta iota. unfold emit, top_movers_events. simpl.
      by rewrite <- !app_assoc.
    + eapply Forall2_impl; [exact Htot|].
      intros kv r [Hs (df & chg & H1 & H2 & H3)]. split; [done|].
      by exists df, chg.
    + unfold top_gainers. by rewrite Hdown.
    + unfold top_losers. by rewrite Hup.
  - unfold mbind, M_bind, bind.
    destruct (for_stocks _ _ _ _ _ _ _) as [[sd|e'] s1]; simpl in *;
      congruence.
Qed.

Lemma analyse_fetched w stocks start_date end_date d :
  download w stocks start_date end_date = Ok d →
  Frame.empty d = false →
  analyse w stocks start_date end_date init
  = process_data w stocks 0
      (mkState [d] [yf_download stocks start_date end_date]).
Proof.
  intros Hdl Hempty.
  unfold analyse, mbind, M_bind, bind, emit, lift, alloc, read.
  rewrite Hdl. simpl. by rewrite Hempty.
Qed.

Lemma top_movers_sorted ascending_flag rows sorted :
  Movers.sort_values ascending_flag rows = Ok sorted →
  sorted ≡ₚ rows
  ∧ StronglySorted (if ascending_flag then ascending else descending) sorted.
Proof.
  intros H. destruct rows as [|r rows]; [done|].
  destruct (sort_values_run ascending_flag (r :: rows)) as (s' & Hs & Hp & Hso);
    [done|].
  rewrite H in Hs. by injection Hs as <-.
Qed.

(** X10. A whole run against the frames as values.  With a fetched frame of
    the fitting shape that is not empty: when every entry of [stocks] has a
    frame, the run shows no error, its objects are the fetched frame followed
    by the frames of the entries, and its page ends with the two tables of
    top movers, each the first five rows of the records, one for each entry
    of the dictionary, in a descending and in an ascending order of the
    totals; when an entry raises, that is a [KeyError], and the page ends
    with the message of that exception. *)
Theorem run_refines w stocks_input start_date end_date d :
  (start_date < end_date)%Z →
  download w (stocks_of stocks_input) start_date end_date = Ok d →
  Frame.empty d = false →
  frame_fits (length (stocks_of stocks_input)) d →
  let stocks := stocks_of stocks_input in
  match stock_frames w (length stocks) d 0 stocks with
  | Ok dfs =>
      ∃ rows gainers losers,
        main w stocks_input start_date end_date init
        = (Ok tt,
           mkState (d :: dfs)
             (yf_download stocks start_date end_date
              :: loop_events w (length stocks) d 0 stocks
              ++ st_header "Market Value Changes"
                 :: shown_changes (d :: dfs) (assign_all 1 stocks [])
              ++ st_header "Top Movers During the Period"
                 :: top_movers_events gainers losers))
        ∧ Forall2 (total_of (mkState (d :: dfs) []))
                  (assign_all 1 stocks []) rows
        ∧ (∃ sorted, sorted ≡ₚ rows ∧ StronglySorted descending sorted
                     ∧ gainers = take 5 sorted)
        ∧ (∃ sorted, sorted ≡ₚ rows ∧ StronglySorted ascending sorted
                     ∧ losers = take 5 sorted)
  | Raise e =>
      is_KeyError e
      ∧ (main w stocks_input start_date end_date init).1 = Ok tt
      ∧ ∃ shown,
          Forall no_error shown
          ∧ page w stocks_input start_date end_date
            = shown ++ [st_error ("An error occurred: " +:+ exn_str e)]
  end.
Proof.
  intros Hlt Hdl Hempty Hfit stocks. subst stocks.
  unfold page, main. rewrite (date_check_passes _ _ Hlt).
  destruct (stocks_of_cons stocks_input) as (stock & rest & E).
  rewrite E in *. unfold try_except.
  pose proof (analyse_no_error w (stock :: rest) start_date end_date init)
    as (new & Hout & Hnew).
  rewrite (analyse_fetched _ _ _ _ _ Hdl Hempty) in *.
  pose proof (process_data_run w (stock :: rest) 0
                (mkState [d] [yf_download (stock :: rest) start_date end_date])
                d eq_refl) as Hpd.
  pose proof (stock_frames_fits w (length (stock :: rest)) d (stock :: rest)
                0) as Hkey.
  destruct (stock_frames w (length (stock :: rest)) d 0 (stock :: rest))
    as [dfs|e].
  - destruct Hpd as (rows & gainers & losers & Hrun & Htot & Hg & Hl);
      [done|].
    exists rows, gainers, losers. rewrite Hrun.
    split; [by simpl in *|]. split; [by simpl in *|].
    unfold top_gainers, top_losers in *.
    destruct (Movers.sort_values false rows) as [down|] eqn:Hdown; [|done].
    destruct (Movers.sort_values true rows) as [up|] eqn:Hup; [|done].
    injection Hg as <-. injection Hl as <-.
    apply top_movers_sorted in Hdown as [Pd Sd].
    apply top_movers_sorted in Hup as [Pu Su].
    split; [by exists down|by exists up].
  - split; [by apply Hkey|].
    specialize (Hpd ltac:(done)).
    destruct (process_data _ _ _ _) as [[[]|e'] s1]; simpl in *; [done|].
    injection Hpd as ->. split; [done|].
    exists new. split; [done|]. by rewrite Hout.
Qed.

Lemma run_refines_witness :
  let stocks := stocks_of "aapl, msft" in
  match stock_frames two_symbol_world (length stocks) two_symbols 0 stocks with
  | Ok dfs =>
      ∃ rows gainers losers,
        main two_symbol_world "aapl, msft" 0 1 init
        = (Ok tt,
           mkState (two_symbols :: dfs)
             (yf_download stocks 0 1
              :: loop_events two_symbol_world (length stocks) two_symbols 0
                   stocks
              ++ st_header "Market Value Changes"
                 :: shown_changes (two_symbols :: dfs) (assign_all 1 stocks [])
              ++ st_header "Top Movers During the Period"
                 :: top_movers_events gainers losers))
        ∧ Forall2 (total_of (mkState (two_symbols :: dfs) []))
                  (assign_all 1 stocks []) rows
        ∧ (∃ sorted, sorted ≡ₚ rows ∧ StronglySorted descending sorted
                     ∧ gainers = take 5 sorted)
        ∧ (∃ sorted, sorted ≡ₚ rows ∧ StronglySorted ascending sorted
                     ∧ losers = take 5 sorted)
  | Raise e =>
      is_KeyError e
      ∧ (main two_symbol_world "aapl, msft" 0 1 init).1 = Ok tt
      ∧ ∃ shown,
          Forall no_error shown
          ∧ page two_symbol_world "aapl, msft" 0 1
            = shown ++ [st_error ("An error occurred: " +:+ exn_str e)]
  end.
Proof.
  apply (run_refines two_symbol_world "aapl, msft" 0 1 two_symbols);
    [lia|reflexivity|reflexivity|].
  unfold frame_fits. simpl. lia.
Defined.

(** ** Frames that cannot be handled *)

Lemma lookup_col_None name (cs : list (string * list (option Q))) :
  name ∉ map fst cs → Frame.lookup_col name cs = None.
Proof.
  induction cs as [|[k v] cs IH]; simpl; [done|]. intros Hn.
  apply not_elem_of_cons in Hn as [Hne Hn].
  destruct (String.eqb k name) eqn:E; [|by apply IH].
  apply String.eqb_eq in E. congruence.
Qed.

(** X11. With more than one requested symbol, a fetched frame that has no
    column for the symbol makes line 53 raise [KeyError] for the symbol
    before anything is done for it: no object is made, nothing is shown and
    the shares are not looked up. *)
Theorem symbol_not_in_frame w n data i stock s d cs :
  heap s !! data = Some d →
  1 < n →
  cols d = MultiCols cs →
  stock ∉ map (λ c, c.1.2) cs →
  process_stock w n data i stock s = (Raise (KeyError stock), s).
Proof.
  intros Hd Hn Hc Hno. apply Nat.ltb_lt in Hn.
  pose proof (extract_refines n data stock s d Hd) as Hex.
  assert (E : filter (λ c : string * string * list (option Q),
                        c.1.2 = stock) cs = []).
  { clear Hc Hex. induction cs as [|c cs IH]; [done|].
    simpl in Hno. apply not_elem_of_cons in Hno as [Hne Hno].
    rewrite filter_cons_False by (intros Hc'; by apply Hne).
    by apply IH. }
  unfold symbol_frame, mbind, result_bind, Frame.loc_symbol in Hex.
  rewrite Hn, Hc, E in Hex.
  unfold process_stock, mbind, M_bind, bind. by rewrite Hex.
Qed.

Lemma symbol_not_in_frame_witness :
  process_stock two_symbol_world 2 0 0 "GOOG" (mkState [two_symbols] [])
  = (Raise (KeyError "GOOG"), mkState [two_symbols] []).
Proof.
  apply (symbol_not_in_frame two_symbol_world 2 0 0 "GOOG"
           (mkState [two_symbols] []) two_symbols
           [(("Adj Close", "AAPL"), [Some 100%Q; Some 102%Q; Some 101%Q]);
            (("Adj Close", "MSFT"), [Some 10%Q; Some 9%Q; Some 11%Q]);
            (("Close", "AAPL"), [Some 101%Q; Some 103%Q; Some 102%Q]);
            (("Close", "MSFT"), [Some 10%Q; Some 9%Q; Some 11%Q])]);
    [reflexivity|lia|reflexivity|].
  apply (bool_decide_unpack _). vm_compute. exact I.
Defined.

(** X12. On a flat frame with neither "Adj Close" nor "Close", line 64 raises
    [KeyError] for "Close" after the notice of line 61 was shown: the notice
    says that the close price is used although there is none.  The copy made
    for the symbol stays as it was fetched and the shares are not looked
    up. *)
Theorem no_price_column w n data i stock s d cs :
  heap s !! data = Some d →
  n ≤ 1 →
  cols d = FlatCols cs →
  "Adj Close" ∉ map fst cs →
  "Close" ∉ map fst cs →
  process_stock w n data i stock s
  = (Raise (KeyError "Close"),
     mkState (heap s ++ [d])
             (out s ++ [st_warning (adj_close_notice stock)])).
Proof.
  intros Hd Hn Hc Hadj Hclose.
  pose proof (extract_refines n data stock s d Hd) as Hex.
  assert (Hn' : (1 <? n) = false) by (by apply Nat.ltb_ge).
  unfold symbol_frame in Hex. rewrite Hn' in Hex.
  pose proof (resolve_price_last stock (heap s) d (out s)) as Hrp.
  assert (Hcontains : Frame.contains "Adj Close" d = false).
  { unfold Frame.contains. rewrite Hc. by apply bool_decide_eq_false. }
  unfold with_price, price_events, mbind, result_bind, Frame.getitem in Hrp.
  rewrite Hcontains, Hc, (lookup_col_None _ _ Hclose) in Hrp. simpl in Hrp.
  unfold process_stock, mbind, M_bind, bind. by rewrite Hex, Hrp.
Qed.

Definition volume_only : DataFrame :=
  mkDF [1; 2]%Z (FlatCols [("Volume", [Some 5%Q; Some 6%Q])]).

Lemma no_price_column_witness :
  process_stock two_symbol_world 1 0 0 "AAPL" (mkState [volume_only] [])
  = (Raise (KeyError "Close"),
     mkState ([volume_only] ++ [volume_only])
             ([] ++ [st_warning (adj_close_notice "AAPL")])).
Proof.
  apply (no_price_column two_symbol_world 1 0 0 "AAPL"
           (mkState [volume_only] []) volume_only
           [("Volume", [Some 5%Q; Some 6%Q])]);
    [reflexivity|lia|reflexivity|..];
    apply (bool_decide_unpack _); vm_compute; exact I.
Defined.

(** ** A symbol that cannot be handled *)

(** What the loop of line 50 may show: notices and share lookups. *)
Definition loop_notice (e : event) : Prop :=
  match e with
  | st_warning _ | yf_Ticker_info _ => True
  | _ => False
  end.

Lemma process_stock_notices w n data i stock :
  respects (shows_more loop_notice) (process_stock w n data i stock).
Proof.
  unfold process_stock, extract, resolve_price, resolve_shares,
    add_market_cap, setitem.
  repeat shows_step; done.
Qed.

Lemma for_stocks_notices w n data stocks : ∀ i sd,
  respects (shows_more loop_notice) (for_stocks w n data i stocks sd).
Proof.
  induction stocks as [|stock rest IH]; intros i sd; simpl.
  - rapply respects_ret.
  - rapply respects_bind; [apply process_stock_notices|intros l; apply IH].
Qed.

(** X14. With a fetched frame of the fitting shape: when the loop of line 50
    raises at one symbol, that is a [KeyError], and the page has no table at
    all, not even for the symbols that were handled before it: after the
    fetch there are only notices and share lookups, and then the message of
    line 123 with the text of the exception. *)
Theorem failed_symbol_shows_no_table w stocks_input start_date end_date d e :
  (start_date < end_date)%Z →
  download w (stocks_of stocks_input) start_date end_date = Ok d →
  Frame.empty d = false →
  frame_fits (length (stocks_of stocks_input)) d →
  (for_stocks w (length (stocks_of stocks_input)) 0 0
     (stocks_of stocks_input) []
     (mkState [d]
        [yf_download (stocks_of stocks_input) start_date end_date])).1
  = Raise e →
  is_KeyError e
  ∧ ∃ notices,
      Forall loop_notice notices
      ∧ page w stocks_input start_date end_date
        = yf_download (stocks_of stocks_input) start_date end_date
          :: notices ++ [st_error ("An error occurred: " +:+ exn_str e)].
Proof.
  intros Hlt Hdl Hempty Hfit Hloop. split.
  { pose proof (for_stocks_refines w (length (stocks_of stocks_input)) 0 d
                  (stocks_of stocks_input) 0 []
                  (mkState [d]
                     [yf_download (stocks_of stocks_input) start_date
                        end_date]) eq_refl) as H.
    pose proof (stock_frames_fits w (length (stocks_of stocks_input)) d
                  (stocks_of stocks_input) 0) as Hkey.
    destruct (stock_frames _ _ _ _ _) as [dfs|e'].
    - rewrite H in Hloop. done.
    - rewrite H in Hloop. injection Hloop as <-. by apply Hkey. }
  unfold page, main. rewrite (date_check_passes _ _ Hlt).
  destruct (stocks_of_cons stocks_input) as (stock & rest & E).
  rewrite E in *. unfold try_except.
  rewrite (analyse_fetched _ _ _ _ _ Hdl Hempty).
  unfold process_data, mbind, M_bind, bind.
  destruct (for_stocks_notices w (length (stock :: rest)) 0 (stock :: rest)
              0 []
              (mkState [d] [yf_download (stock :: rest) start_date end_date]))
    as (notices & Hout & Hnot).
  destruct (for_stocks _ _ _ _ _ _ _) as [[sd|e'] s1]; simpl in *; [done|].
  injection Hloop as ->. exists notices. split; [done|]. by rewrite Hout.
Qed.

Lemma failed_symbol_shows_no_table_witness :
  is_KeyError (KeyError "GOOG")
  ∧ ∃ notices,
      Forall loop_notice notices
      ∧ page two_symbol_world "msft, goog" 0 1
        = yf_download (stocks_of "msft, goog") 0 1
          :: notices
             ++ [st_error
                   ("An error occurred: " +:+ exn_str (KeyError "GOOG"))].
Proof.
  apply (failed_symbol_shows_no_table two_symbol_world "msft, goog" 0 1
           two_symbols (KeyError "GOOG")); [lia|reflexivity|reflexivity| |].
  - unfold frame_fits. simpl. lia.
  - reflexivity.
Defined.

(** ** What the two tables of top movers leave out *)

Lemma head_of_sorted (R : relation mover) n sorted rows x r :
  sorted ≡ₚ rows → StronglySorted R sorted →
  x ∈ Movers.head n sorted → r ∈ rows → r ∉ Movers.head n sorted → R x r.
Proof.
  unfold Movers.head. intros Hperm Hsorted Hx Hr Hnot.
  rewrite <- Hperm, <- (take_drop n sorted) in Hr.
  apply elem_of_app in Hr as [Hr|Hr]; [done|].
  rewrite <- (take_drop n sorted) in Hsorted.
  apply StronglySorted_app in Hsorted as (Hcross & _ & _).
  by apply Hcross.
Qed.

Lemma head_of_few n (sorted rows : list mover) :
  sorted ≡ₚ rows → length rows ≤ n → Movers.head n sorted ≡ₚ rows.
Proof.
  intros Hperm Hlen. unfold Movers.head.
  rewrite take_ge; [done|]. by rewrite Hperm.
Qed.

(** X15. A record that is not among the top gainers has a total no larger than
    that of any of them, and a record that is not among the top losers has a
    total no smaller than that of any of them.  With at most five records
    nothing is left out: both tables hold every record. *)
Theorem top_movers_are_extremes rows :
  rows ≠ [] →
  ∃ gainers losers,
    top_gainers rows = Ok gainers
    ∧ top_losers rows = Ok losers
    ∧ (∀ g r, g ∈ gainers → r ∈ rows → r ∉ gainers →
              (Total r <= Total g)%Q)
    ∧ (∀ lo r, lo ∈ losers → r ∈ rows → r ∉ losers →
               (Total lo <= Total r)%Q)
    ∧ (length rows ≤ 5 → gainers ≡ₚ rows ∧ losers ≡ₚ rows).
Proof.
  intros Hne.
  destruct (sort_values_run false rows Hne) as (down & Hdown & Pdown & Sdown).
  destruct (sort_values_run true rows Hne) as (up & Hup & Pup & Sup).
  exists (Movers.head 5 down), (Movers.head 5 up).
  unfold top_gainers, top_losers. rewrite Hdown, Hup.
  split; [done|]. split; [done|]. split; [|split].
  - intros g r Hg Hr Hnot.
    apply (head_of_sorted descending 5 down rows g r); done.
  - intros lo r Hlo Hr Hnot.
    apply (head_of_sorted ascending 5 up rows lo r); done.
  - intros Hlen. split; by apply head_of_few.
Qed.

Lemma top_movers_are_extremes_witness :
  ∃ gainers losers,
    top_gainers [mkMover "AAPL" 3; mkMover "MSFT" (-2)] = Ok gainers
    ∧ top_losers [mkMover "AAPL" 3; mkMover "MSFT" (-2)] = Ok losers
    ∧ (∀ g r, g ∈ gainers → r ∈ [mkMover "AAPL" 3; mkMover "MSFT" (-2)] →
              r ∉ gainers → (Total r <= Total g)%Q)
    ∧ (∀ lo r, lo ∈ losers → r ∈ [mkMover "AAPL" 3; mkMover "MSFT" (-2)] →
               r ∉ losers → (Total lo <= Total r)%Q)
    ∧ (length [mkMover "AAPL" 3; mkMover "MSFT" (-2)] ≤ 5 →
       gainers ≡ₚ [mkMover "AAPL" 3; mkMover "MSFT" (-2)]
       ∧ losers ≡ₚ [mkMover "AAPL" 3; mkMover "MSFT" (-2)]).
Proof.
  apply (top_movers_are_extremes [mkMover "AAPL" 3; mkMover "MSFT" (-2)]).
  discriminate.
Defined.

(** ** What the handling of a symbol leaves as it was fetched *)

Lemma setitem_other name v df df' :
  Frame.setitem name v df = Ok df' →
  index df' = index df
  ∧ ∀ name', name ≠ name' → Frame.getitem name' df' = Frame.getitem name' df.
Proof.
  unfold Frame.setitem. destruct (cols df) as [cs|cs] eqn:Hc; [|done].
  intros [= <-]. split; [done|]. intros name' Hne.
  unfold Frame.getitem. cbv beta zeta iota delta [cols]. fold (cols df).
  by rewrite Hc, lookup_col_assign_ne.
Qed.

Lemma getitem_contains name df v :
  Frame.getitem name df = Ok v → Frame.contains name df = true.
Proof.
  intros H. destruct (getitem_Ok_flat _ _ _ H) as (cs & Hc & Hcol).
  unfold Frame.contains. rewrite Hc.
  apply bool_decide_eq_true_2. by eapply lookup_col_Some_fst.
Qed.

Lemma symbol_frame_index n d stock df0 :
  symbol_frame n d stock = Ok df0 → index df0 = index d.
Proof.
  unfold symbol_frame, mbind, result_bind, Frame.loc_symbol, Frame.droplevel1.
  destruct (1 <? n); [|by intros [= <-]].
  destruct (cols d) as [cs|cs]; [done|].
  destruct (filter _ cs); [done|]. cbv beta zeta iota delta [cols index].
  by intros [= <-].
Qed.

Lemma with_price_other df0 df1 :
  with_price df0 = Ok df1 →
  index df1 = index df0
  ∧ (∀ name, name ≠ "Adj Close" →
             Frame.getitem name df1 = Frame.getitem name df0)
  ∧ (∀ price, Frame.getitem "Adj Close" df0 = Ok price →
              Frame.getitem "Adj Close" df1 = Ok price).
Proof.
  unfold with_price, mbind, result_bind.
  destruct (Frame.contains "Adj Close" df0) eqn:Hc;
    cbv beta iota delta [negb].
  - by intros [= <-].
  - destruct (Frame.getitem "Close" df0) as [close|e]; [|done].
    intros H. apply setitem_other in H as [Hi Ho].
    split; [done|]. split.
    + intros name Hne. apply Ho. congruence.
    + intros price Hp. apply getitem_contains in Hp. congruence.
Qed.

Lemma with_caps_other n df1 df :
  with_caps n df1 = Ok df →
  index df = index df1
  ∧ ∀ name, name ≠ "Market Cap" → name ≠ "Market Cap Change" →
            Frame.getitem name df = Frame.getitem name df1.
Proof.
  unfold with_caps, mbind, result_bind.
  destruct (Frame.getitem "Adj Close" df1) as [adj|e]; [|done].
  destruct (Frame.setitem "Market Cap" _ df1) as [df2|e] eqn:H2; [|done].
  destruct (Frame.getitem "Market Cap" df2) as [cap|e]; [|done].
  intros H3. apply setitem_other in H2 as [Hi2 Ho2].
  apply setitem_other in H3 as [Hi3 Ho3].
  split; [congruence|]. intros name Hn1 Hn2.
  rewrite Ho3 by congruence. apply Ho2. congruence.
Qed.

(** X16. The frame of a symbol that was handled has the dates of the fetched
    frame and, apart from the columns "Adj Close", "Market Cap" and "Market Cap
    Change", the columns that lines 52-56 took from the fetched frame, with
    their data; an "Adj Close" that was fetched is not overwritten either. *)
Theorem handled_symbol_keeps_fields w n data i stock s d l s' :
  heap s !! data = Some d →
  process_stock w n data i stock s = (Ok l, s') →
  ∃ df0 df,
    symbol_frame n d stock = Ok df0
    ∧ heap s' !! l = Some df
    ∧ index df = index d
    ∧ (∀ name, name ≠ "Adj Close" → name ≠ "Market Cap" →
               name ≠ "Market Cap Change" →
               Frame.getitem name df = Frame.getitem name df0)
    ∧ (∀ price, Frame.getitem "Adj Close" df0 = Ok price →
                Frame.getitem "Adj Close" df = Ok price).
Proof.
  intros Hd Hrun.
  pose proof (process_stock_run w n data i stock s d Hd) as H.
  unfold stock_frame, mbind, result_bind in H.
  destruct (symbol_frame n d stock) as [df0|e] eqn:H0;
    [|rewrite Hrun in H; done].
  destruct (with_price df0) as [df1|e] eqn:H1; [|rewrite Hrun in H; done].
  destruct (with_caps (shares_of w i stock) df1) as [df|e] eqn:H2;
    [|rewrite Hrun in H; done].
  rewrite Hrun in H. injection H as -> ->.
  apply symbol_frame_index in H0.
  apply with_price_other in H1 as (Hi1 & Ho1 & Ha1).
  apply with_caps_other in H2 as (Hi2 & Ho2).
  exists df0, df. split; [done|]. split.
  { simpl. by apply list_lookup_middle. }
  split; [congruence|]. split.
  - intros name Hn1 Hn2 Hn3. rewrite Ho2 by done. by apply Ho1.
  - intros price Hp. rewrite Ho2 by done. by apply Ha1.
Qed.

Lemma handled_symbol_keeps_fields_witness :
  ∃ df0 df,
    symbol_frame 2 two_symbols "MSFT" = Ok df0
    ∧ heap (process_stock two_symbol_world 2 0 0 "MSFT"
              (mkState [two_symbols] [])).2 !! 1 = Some df
    ∧ index df = index two_symbols
    ∧ (∀ name, name ≠ "Adj Close" → name ≠ "Market Cap" →
               name ≠ "Market Cap Change" →
               Frame.getitem name df = Frame.getitem name df0)
    ∧ (∀ price, Frame.getitem "Adj Close" df0 = Ok price →
                Frame.getitem "Adj Close" df = Ok price).
Proof.
  apply (handled_symbol_keeps_fields two_symbol_world 2 0 0 "MSFT"
           (mkState [two_symbols] []) two_symbols 1
           (process_stock two_symbol_world 2 0 0 "MSFT"
              (mkState [two_symbols] [])).2); reflexivity.
Defined.
